(** * Scripts/off_export.py: the OpenFoodFacts snapshot exporter

    A shallow embedding of the exporter and the properties its
    specification states about it.  Python values are dynamically typed,
    so the embedding keeps a small universe of JSON-shaped values and an
    exception monad: an operation applied to a value of the wrong shape
    raises, exactly where the interpreter would. *)

From Stdlib Require Import ZArith NArith List String Ascii Bool Lia.
From Stdlib Require Import PrimFloat FloatOps SpecFloat FloatAxioms.
From stdpp Require Import base option list gmap.

Set Warnings "-register-all,-inexact-float".

Local Open Scope N_scope.

(** ** Strings

    A Python [str] is a sequence of Unicode code points. *)

Abbreviation str := (list N).

(** The code points of a UTF-8 byte sequence: the decoder of the
    literals of this file, and of what the encoder below has written. *)
Fixpoint utf8_decode (bs : list N) : str :=
  match bs with
  | [] => []
  | b0 :: r1 =>
    if b0 <? 128 then b0 :: utf8_decode r1 else
    match r1 with
    | [] => [b0]
    | b1 :: r2 =>
      if b0 <? 224 then ((b0 - 192) * 64 + (b1 - 128)) :: utf8_decode r2 else
      match r2 with
      | [] => [b0; b1]
      | b2 :: r3 =>
        if b0 <? 240
        then ((b0 - 224) * 4096 + (b1 - 128) * 64 + (b2 - 128)) :: utf8_decode r3
        else
        match r3 with
        | [] => [b0; b1; b2]
        | b3 :: r4 =>
          ((b0 - 240) * 262144 + (b1 - 128) * 4096 + (b2 - 128) * 64 + (b3 - 128))
            :: utf8_decode r4
        end
      end
    end
  end.

Definition u (s : string) : str :=
  utf8_decode (map N_of_ascii (list_ascii_of_string s)).

(** [str.isspace] on one code point (the interpreter's whitespace table). *)
Definition is_space (c : N) : bool :=
  ((9 <=? c) && (c <=? 13)) || ((28 <=? c) && (c <=? 32))
  || (c =? 133) || (c =? 160) || (c =? 5760)
  || ((8192 <=? c) && (c <=? 8202))
  || (c =? 8232) || (c =? 8233) || (c =? 8239) || (c =? 8287) || (c =? 12288).

Fixpoint lstrip (s : str) : str :=
  match s with
  | [] => []
  | c :: r => if is_space c then lstrip r else s
  end.

Definition rstrip (s : str) : str := rev (lstrip (rev s)).

(** [s.strip()] *)
Definition strip (s : str) : str := rstrip (lstrip s).

(** [s.split(sep)] for a one-character separator. *)
Fixpoint str_split (sep : N) (s : str) : list str :=
  match s with
  | [] => [[]]
  | c :: r =>
    if c =? sep then [] :: str_split sep r
    else match str_split sep r with
         | h :: t => (c :: h) :: t
         | [] => [[c]]
         end
  end.

Fixpoint startswith (s k : str) : bool :=
  match k, s with
  | [], _ => true
  | _ :: _, [] => false
  | a :: k', b :: s' => (a =? b) && startswith s' k'
  end.

(** [k in s] on strings: [k] occurs in [s] as a contiguous block. *)
Fixpoint contains (k s : str) : bool :=
  startswith s k ||
  match s with
  | [] => false
  | _ :: r => contains k r
  end.

(** ** Floats

    Python's [float] is IEEE 754 binary64, which is Rocq's primitive
    [float]. *)

Definition isnan (f : float) : bool := PrimFloat.is_nan f.
Definition isinf (f : float) : bool := PrimFloat.is_infinity f.
Definition finite (f : float) : bool := negb (isnan f) && negb (isinf f).

(** ** Exceptions and the exception monad *)

(** The exception classes that the modelled code can meet; every one of
    them derives from [Exception]. *)
Inductive exn :=
  | AttributeError | TypeError | ValueError | OverflowError
  | RuntimeError | URLError | HTTPError | TimeoutError
  | JSONDecodeError | UnicodeDecodeError | UnicodeEncodeError.

Inductive result (A : Type) :=
  | Ok (a : A)
  | Raise (e : exn).
Arguments Ok {A} a.
Arguments Raise {A} e.

#[global] Instance result_ret : MRet result := fun _ a => Ok a.
#[global] Instance result_bind : MBind result := fun _ _ k m =>
  match m with
  | Ok a => k a
  | Raise e => Raise e
  end.

(** [try: m  except Exception: h] *)
Definition try_except {A} (m : result A) (h : exn -> result A) : result A :=
  match m with
  | Ok a => Ok a
  | Raise e => h e
  end.

(** ** UTF-8

    [text.encode("utf-8")], the encoder of a file opened with
    [encoding="utf-8"]: one to four bytes for a code point.  A surrogate
    code point (U+D800 to U+DFFF) has no encoding, and a text that holds
    one makes the whole call raise. *)

Abbreviation bytes := (list N).

Definition is_surrogate (c : N) : bool := (55296 <=? c) && (c <=? 57343).

Definition utf8_encode_char (c : N) : bytes :=
  if c <? 128 then [c]
  else if c <? 2048 then [192 + c / 64; 128 + c mod 64]
  else if c <? 65536
  then [224 + c / 4096; 128 + (c / 64) mod 64; 128 + c mod 64]
  else [240 + c / 262144; 128 + (c / 4096) mod 64; 128 + (c / 64) mod 64;
        128 + c mod 64].

Definition utf8_encode (text : str) : result bytes :=
  if existsb is_surrogate text then Raise UnicodeEncodeError
  else Ok (flat_map utf8_encode_char text).

(** ** Values

    What [json.loads] can produce.  A [VDict] lists the items of a dict
    in insertion order; in a dict the keys are pairwise distinct. *)
Inductive pyval :=
  | VNone
  | VBool (b : bool)
  | VInt (z : Z)
  | VFloat (f : float)
  | VStr (s : str)
  | VList (l : list pyval)
  | VDict (d : list (str * pyval)).

(** Truth value of an object, as [not], [if] and [or] test it. *)
Definition truthy (v : pyval) : bool :=
  match v with
  | VNone => false
  | VBool b => b
  | VInt z => negb (z =? 0)%Z
  | VFloat f => negb (f =? 0)%float
  | VStr s => negb (bool_decide (s = []))
  | VList l => match l with [] => false | _ => true end
  | VDict d => match d with [] => false | _ => true end
  end.

(** [v or d] *)
Definition py_or (v d : pyval) : pyval := if truthy v then v else d.

Fixpoint assoc (k : str) (d : list (str * pyval)) : option pyval :=
  match d with
  | [] => None
  | (k', v) :: r => if bool_decide (k = k') then Some v else assoc k r
  end.

(** [p.get(k, dflt)]; only a dict has the method. *)
Definition get_default (p : pyval) (k : str) (dflt : pyval) : result pyval :=
  match p with
  | VDict d => Ok (default dflt (assoc k d))
  | _ => Raise AttributeError
  end.

(** [p.get(k)] *)
Definition get (p : pyval) (k : str) : result pyval := get_default p k VNone.

(** [v.strip()]; only a str has the method. *)
Definition py_strip (v : pyval) : result str :=
  match v with
  | VStr s => Ok (strip s)
  | _ => Raise AttributeError
  end.

(** The items that [for x in v] visits. *)
Definition py_iter (v : pyval) : result (list pyval) :=
  match v with
  | VList l => Ok l
  | VStr s => Ok (map (fun c => VStr [c]) s)
  | VDict d => Ok (map (fun kv => VStr (fst kv)) d)
  | VNone | VBool _ | VInt _ | VFloat _ => Raise TypeError
  end.

(** [float(z)] for an int: the nearest float, ties to even;
    [OverflowError] beyond the largest finite float. *)
Definition float_of_int (z : Z) : result float :=
  let f := SF2Prim (binary_normalize prec emax z 0 false) in
  if isinf f then Raise OverflowError else Ok f.

(** ** The exporter *)

Section Exporter.

(** Interpreter built-ins that are used through their results only:
    [s.lower()], [float(s)] on a str ([None] when it raises [ValueError])
    and the formatting [f"{x}"] of a float. *)
Variable str_lower : str -> str.
Variable float_of_str : str -> option float.
Variable format_float : float -> str.

(** [float(value)] *)
Definition py_float (value : pyval) : result float :=
  match value with
  | VNone => Raise TypeError
  | VBool b => Ok (if b then 1 else 0)%float
  | VInt z => float_of_int z
  | VFloat f => Ok f
  | VStr s => match float_of_str s with Some f => Ok f | None => Raise ValueError end
  | VList _ | VDict _ => Raise TypeError
  end.

Definition to_float (value : pyval) : result float :=
  try_except
    (f ← py_float value;
     if isnan f || isinf f then mret 0%float else mret f)
    (fun _ => mret 0%float).

Definition first_brand (brands_field : str) : str :=
  if bool_decide (brands_field = []) then []
  else
    let parts :=
      filter (fun p : str => p ≠ []) (map strip (str_split 44 brands_field)) in
    match parts with
    | p0 :: _ => p0
    | [] => []
    end.

Definition CATEGORY_MAP : list (str * str) :=
  map (fun kv : string * string => (u (fst kv), u (snd kv)))
  [ ("meat", "meat");
    ("beef", "meat");
    ("poultry", "meat");
    ("chicken", "meat");
    ("turkey", "meat");
    ("lamb", "meat");
    ("pork", "meat");
    ("dairy", "dairy");
    ("milk", "dairy");
    ("cheese", "dairy");
    ("yogurt", "dairy");
    ("grain", "grains");
    ("cereal", "grains");
    ("rice", "grains");
    ("pasta", "grains");
    ("bread", "bakery");
    ("bakery", "bakery");
    ("vegetable", "vegetables");
    ("legume", "vegetables");
    ("salad", "vegetables");
    ("fruit", "fruits");
    ("nut", "nuts");
    ("beverage", "beverages");
    ("drink", "beverages");
    ("juice", "beverages");
    ("snack", "snacks");
    ("confectionery", "snacks");
    ("chocolate", "snacks");
    ("sweet", "desserts");
    ("dessert", "desserts");
    ("sauce", "condiments");
    ("condiment", "condiments");
    ("seafood", "seafood");
    ("fish", "seafood");
    ("fast-food", "fastfood");
    ("turkish-cuisine", "turkish")
  ]%string.

(** [[t.lower() for t in items]]: every element is lowered before the
    scan starts, and only a str has the method. *)
Fixpoint lower_all (items : list pyval) : result (list str) :=
  match items with
  | [] => mret []
  | VStr t :: rest => tags ← lower_all rest; mret (str_lower t :: tags)
  | _ :: _ => Raise AttributeError
  end.

(** The inner loop of [map_category]: the items of the table in order. *)
Fixpoint scan_keys (table : list (str * str)) (tag : str) : option str :=
  match table with
  | [] => None
  | (key, value) :: rest =>
    if contains key tag then Some value else scan_keys rest tag
  end.

(** The outer loop of [map_category]. *)
Fixpoint scan_tags (tags : list str) : str :=
  match tags with
  | [] => u "other"
  | tag :: rest =>
    match scan_keys CATEGORY_MAP tag with
    | Some value => value
    | None => scan_tags rest
    end
  end.

Definition map_category (categories_tags : pyval) : result str :=
  if negb (truthy categories_tags) then mret (u "other")
  else
    items ← py_iter categories_tags;
    tags ← lower_all items;
    mret (scan_tags tags).

Definition DEFAULT_QUERIES_TR : list str :=
  map u
  [ "tavuk göğsü"; "hindi göğsü"; "yumurta"; "yoğurt"; "süt"; "peynir";
    "lor peyniri"; "kefir";
    "nohut"; "mercimek"; "kuru fasulye"; "barbunya";
    "pirinç"; "bulgur"; "yulaf"; "tam buğday ekmeği"; "makarna";
    "zeytinyağı"; "avokado";
    "badem"; "fındık"; "ceviz";
    "muz"; "elma"; "portakal"; "çilek"; "ıspanak"; "brokoli"; "domates";
    "salatalık";
    "ton balığı"; "somon"
  ]%string.

(** *** The search request *)

(** What [urlopen] answers: it raises, or it gives a response with a
    status and a body; [body] is the outcome of
    [json.loads(resp.read().decode("utf-8"))]. *)
Inductive http_reply :=
  | NoResponse (e : exn)
  | Response (status : Z) (body : result pyval).

(** The request parameters that vary. *)
Record request := { search_terms : str; page_size : Z; req_lc : str }.

Definition fetch_off_search (urlopen : request -> http_reply)
    (query : str) (page_size : Z) (lc : str) : result pyval :=
  match urlopen {| search_terms := query; page_size := page_size; req_lc := lc |} with
  | NoResponse e => Raise e
  | Response status body =>
    if ((status <? 200) || (status >=? 300))%Z then Raise RuntimeError
    else
      data ← body;
      get_default data (u "products") (VList [])
  end.

(** *** The loop of [main] *)

Inductive line :=
  | WARN (q : str) (e : exn)
  | DONE (n : nat) (path : str).

Record state := {
  seen : gset str;
  rows : list (list str);
  stdout : list line;
  naps : nat
}.

(** The [continue] statements of the inner loop, and its end. *)
Inductive skip := EmptyCode | Duplicate | AllBlank | NoName.

Inductive verdict :=
  | Skip (why : skip)
  | Append (code : str) (row : list str).

(** The body of [for p in products], up to its two final statements. *)
Definition examine (seen : gset str) (p : pyval) : result verdict :=
  c ← get p (u "code");
  code ← py_strip (py_or c (VStr []));
  if bool_decide (code = []) then mret (Skip EmptyCode)
  else if bool_decide (code ∈ seen) then mret (Skip Duplicate)
  else
    n ← get p (u "nutriments");
    let nutr := py_or n (VDict []) in
    kcal ← get nutr (u "energy-kcal_100g") ≫= to_float;
    prot ← get nutr (u "proteins_100g") ≫= to_float;
    carb ← get nutr (u "carbohydrates_100g") ≫= to_float;
    fat ← get nutr (u "fat_100g") ≫= to_float;
    if ((kcal <=? 0) && ((prot <=? 0) && (carb <=? 0) && (fat <=? 0)))%float
    then mret (Skip AllBlank)
    else
      pn ← get p (u "product_name");
      name ← py_strip (py_or pn (VStr []));
      if bool_decide (name = []) then mret (Skip NoName)
      else
        b ← get p (u "brands");
        bs ← py_strip (py_or b (VStr []));
        let brand := first_brand bs in
        t ← get p (u "categories_tags");
        let categories_tags := py_or t (VList []) in
        category ← map_category categories_tags;
        mret (Append code
                [name; name; brand;
                 format_float kcal; format_float prot;
                 format_float carb; format_float fat;
                 category]).

(** [rows.append(row); seen.add(code)] *)
Definition commit (st : state) (v : verdict) : state :=
  match v with
  | Skip _ => st
  | Append code row =>
    {| seen := {[code]} ∪ seen st; rows := rows st ++ [row];
       stdout := stdout st; naps := naps st |}
  end.

Definition visit (st : state) (p : pyval) : result state :=
  v ← examine (seen st) p;
  mret (commit st v).

Fixpoint for_products (st : state) (products : list pyval) : result state :=
  match products with
  | [] => mret st
  | p :: rest => st' ← visit st p; for_products st' rest
  end.

Definition print (st : state) (l : line) : state :=
  {| seen := seen st; rows := rows st; stdout := stdout st ++ [l]; naps := naps st |}.

Definition sleep (st : state) : state :=
  {| seen := seen st; rows := rows st; stdout := stdout st; naps := S (naps st) |}.

Record args := { out : str; limit : Z; lc : str }.

(** One round of [for idx, q in enumerate(DEFAULT_QUERIES_TR)]; [urlopen]
    is the network at the time of this round. *)
Definition query (a : args) (urlopen : request -> http_reply)
    (st : state) (q : str) : result state :=
  match fetch_off_search urlopen q (limit a) (lc a) with
  | Raise e => mret (print st (WARN q e))
  | Ok products =>
    ps ← py_iter products;
    st' ← for_products st ps;
    mret (sleep st')
  end.

Fixpoint for_queries (a : args) (net : nat -> request -> http_reply)
    (idx : nat) (st : state) (queries : list str) : result state :=
  match queries with
  | [] => mret st
  | q :: rest =>
    st' ← query a (net idx) st q;
    for_queries a net (S idx) st' rest
  end.

Definition initial : state :=
  {| seen := ∅; rows := []; stdout := []; naps := 0 |}.

(** *** The CSV writer

    [csv.writer(f)] with the default dialect: comma, double quote,
    minimal quoting, doubled quotes, CRLF. *)

Definition needs_quotes (field : str) : bool :=
  existsb (fun c => (c =? 44) || (c =? 34) || (c =? 13) || (c =? 10)) field.

Definition double_quotes (field : str) : str :=
  flat_map (fun c => if c =? 34 then [34; 34] else [c]) field.

Definition csv_field (field : str) : str :=
  if needs_quotes field then 34 :: double_quotes field ++ [34] else field.

Fixpoint join (sep : N) (fields : list str) : str :=
  match fields with
  | [] => []
  | [f] => f
  | f :: rest => f ++ sep :: join sep rest
  end.

(** [writer.writerow(fields)]: a record whose only field is empty is
    written as a pair of quotes. *)
Definition writerow (fields : list str) : str :=
  match fields with
  | [[]] => [34; 34; 13; 10]
  | _ => join 44 (map csv_field fields) ++ [13; 10]
  end.

Definition writerows (rs : list (list str)) : str :=
  concat (map writerow rs).

Definition HEADER : list str :=
  map u ["nameEN"; "nameTR"; "brand"; "calories"; "protein"; "carbs"; "fat";
         "category"]%string.

(** The file system maps a path to the bytes of the file; every path
    can be opened and takes whatever is written to it.  Opening a file
    for writing truncates it. *)
Definition open_w (path : str) (fs : gmap str bytes) : gmap str bytes :=
  <[path := []]> fs.

(** [f.write(text)] on a file opened with [encoding="utf-8"]: the text
    is encoded as a whole and its bytes go to the end of the file; when
    the encoder raises, nothing of the text is written. *)
Definition write (path : str) (text : str) (fs : gmap str bytes)
    : result (gmap str bytes) :=
  bs ← utf8_encode text;
  mret (<[path := default [] (fs !! path) ++ bs]> fs).

(** [writer.writerows(rows)]: one [write] per row, up to the first that
    raises; the file system that is left, and the outcome. *)
Fixpoint writerows_to (path : str) (rs : list (list str)) (fs : gmap str bytes)
    : gmap str bytes * result unit :=
  match rs with
  | [] => (fs, Ok tt)
  | r :: rest =>
    match write path (writerow r) fs with
    | Ok fs' => writerows_to path rest fs'
    | Raise e => (fs, Raise e)
    end
  end.

(** [with open(path, "w", ..., encoding="utf-8") as f], without newline
    translation: the header row, then the rows.  Leaving the block
    closes the file with what has been written, also when a write
    raises. *)
Definition write_table (path : str) (rs : list (list str))
    (fs : gmap str bytes) : gmap str bytes * result unit :=
  match write path (writerow HEADER) (open_w path fs) with
  | Ok fs' => writerows_to path rs fs'
  | Raise e => (open_w path fs, Raise e)
  end.

Record world := { files : gmap str bytes; console : list line }.

Definition main_on (queries : list str) (a : args)
    (net : nat -> request -> http_reply) (fs : gmap str bytes) : result world :=
  st ← for_queries a net 0 initial queries;
  let '(fs', written) := write_table (out a) (rows st) fs in
  _ ← written;
  let st' := print st (DONE (length (rows st)) (out a)) in
  mret {| files := fs'; console := stdout st' |}.

Definition main := main_on DEFAULT_QUERIES_TR.

(** *** Reading a table back

    The rows of a delimited text, as a reader of the same dialect takes
    them: fields end at a comma, records at CR LF, a field in double
    quotes may hold commas and line ends, and a doubled quote inside it
    stands for one quote. *)
Inductive reading :=
  | RecordStart | FieldStart | InField | InQuoted | QuoteSeen | AfterCR.

Definition end_record (field : str) (record : list str) : list str :=
  rev (rev field :: record).

(** One character: the record that ends with it, if any, and the new
    state, pending field (reversed) and pending record (reversed). *)
Definition read_char (state : reading) (c : N) (field : str) (record : list str)
    : option (list str) * reading * str * list str :=
  match state with
  | RecordStart | AfterCR =>
    if (c =? 10) && match state with AfterCR => true | _ => false end
    then (None, RecordStart, [], [])
    else if c =? 34 then (None, InQuoted, [], [])
    else if c =? 44 then (None, FieldStart, [], [[]])
    else if c =? 13 then (Some [], AfterCR, [], [])
    else (None, InField, [c], [])
  | FieldStart =>
    if c =? 34 then (None, InQuoted, [], record)
    else if c =? 44 then (None, FieldStart, [], [] :: record)
    else if c =? 13 then (Some (end_record [] record), AfterCR, [], [])
    else (None, InField, [c], record)
  | InField =>
    if c =? 44 then (None, FieldStart, [], rev field :: record)
    else if c =? 13 then (Some (end_record field record), AfterCR, [], [])
    else (None, InField, c :: field, record)
  | InQuoted =>
    if c =? 34 then (None, QuoteSeen, field, record)
    else (None, InQuoted, c :: field, record)
  | QuoteSeen =>
    if c =? 34 then (None, InQuoted, 34 :: field, record)
    else if c =? 44 then (None, FieldStart, [], rev field :: record)
    else if c =? 13 then (Some (end_record field record), AfterCR, [], [])
    else (None, InField, c :: field, record)
  end.

Fixpoint read (text : str) (state : reading) (field : str) (record : list str)
    : list (list str) :=
  match text with
  | [] =>
    match state with
    | RecordStart | AfterCR => []
    | _ => [end_record field record]
    end
  | c :: rest =>
    match read_char state c field record with
    | (Some r, state', field', record') => r :: read rest state' field' record'
    | (None, state', field', record') => read rest state' field' record'
    end
  end.

Definition read_table (text : str) : list (list str) :=
  read text RecordStart [] [].

(** The states in which a field may start, with the fields read so far
    in the record. *)
Definition starts (start : reading) (record : list str) : Prop :=
  start = FieldStart \/ (start = RecordStart /\ record = []).

(** *** Vocabulary of the specification *)

(** The Record Normalizer is the loop body before any identifier has
    been accepted. *)
Definition normalize (p : pyval) : result verdict := examine ∅ p.

(** The trimmed product identifier of a record. *)
Definition identifier (p : pyval) : result str :=
  c ← get p (u "code");
  py_strip (py_or c (VStr [])).

(** The trimmed display name of a record. *)
Definition display_name (p : pyval) : result str :=
  pn ← get p (u "product_name");
  py_strip (py_or pn (VStr [])).

(** The four sanitized macro values of a record. *)
Definition macros (p : pyval) : result (float * float * float * float) :=
  n ← get p (u "nutriments");
  let nutr := py_or n (VDict []) in
  kcal ← get nutr (u "energy-kcal_100g") ≫= to_float;
  prot ← get nutr (u "proteins_100g") ≫= to_float;
  carb ← get nutr (u "carbohydrates_100g") ≫= to_float;
  fat ← get nutr (u "fat_100g") ≫= to_float;
  mret (kcal, prot, carb, fat).

Definition all_blank (m : float * float * float * float) : bool :=
  let '(kcal, prot, carb, fat) := m in
  ((kcal <=? 0) && ((prot <=? 0) && (carb <=? 0) && (fat <=? 0)))%float.

(** The row built for a record that passed the gates. *)
Definition row_of (p : pyval) (name : str)
    (m : float * float * float * float) : result (list str) :=
  let '(kcal, prot, carb, fat) := m in
  b ← get p (u "brands");
  bs ← py_strip (py_or b (VStr []));
  t ← get p (u "categories_tags");
  category ← map_category (py_or t (VList []));
  mret [name; name; first_brand bs;
        format_float kcal; format_float prot;
        format_float carb; format_float fat;
        category].

(** The raw-record data model: an object whose identifier, display name
    and brand field are strings, whose nutrient sub-record is an object
    (its values are arbitrary) and whose tag list is a list of strings;
    each of the five may be missing or null. *)
Definition is_str (v : pyval) : bool :=
  match v with VStr _ => true | _ => false end.

Definition is_dict (v : pyval) : bool :=
  match v with VDict _ => true | _ => false end.

Definition is_str_list (v : pyval) : bool :=
  match v with VList l => forallb is_str l | _ => false end.

Definition absent_or (shape : pyval -> bool) (d : list (str * pyval)) (k : str) : bool :=
  match assoc k d with
  | None | Some VNone => true
  | Some v => shape v
  end.

Definition raw_record (p : pyval) : bool :=
  match p with
  | VDict d =>
    absent_or is_str d (u "code") && absent_or is_str d (u "product_name")
    && absent_or is_str d (u "brands") && absent_or is_dict d (u "nutriments")
    && absent_or is_str_list d (u "categories_tags")
  | _ => false
  end.

(** The records that the run visits, in query-term order and then in
    record order within a term; a failed term brings none. *)
Fixpoint surfaced (a : args) (net : nat -> request -> http_reply)
    (idx : nat) (queries : list str) : list pyval :=
  match queries with
  | [] => []
  | q :: rest =>
    match fetch_off_search (net idx) q (limit a) (lc a) ≫= py_iter with
    | Ok ps => ps
    | Raise _ => []
    end ++ surfaced a net (S idx) rest
  end.

(** The label chosen for a list of lowered tags: it comes from the first
    tag that any keyword matches and, for that tag, from the first
    keyword of the table that matches it. *)
Definition first_match (lowered : list str) (c : str) : Prop :=
  exists i j tag key,
    lowered !! i = Some tag /\ CATEGORY_MAP !! j = Some (key, c) /\
    contains key tag = true /\
    (forall j' key' c',
        (j' < j)%nat -> CATEGORY_MAP !! j' = Some (key', c') -> contains key' tag = false) /\
    (forall i' tag' key' c',
        (i' < i)%nat -> lowered !! i' = Some tag' -> (key', c') ∈ CATEGORY_MAP ->
        contains key' tag' = false).

Definition no_match (lowered : list str) : Prop :=
  forall tag key c,
    tag ∈ lowered -> (key, c) ∈ CATEGORY_MAP -> contains key tag = false.

(** Two states with the same accepted identifiers and the same rows;
    two outcomes that agree up to what was printed and slept. *)
Definition same_table (s1 s2 : state) : Prop :=
  seen s1 = seen s2 /\ rows s1 = rows s2.

Definition agree (r1 r2 : result state) : Prop :=
  match r1, r2 with
  | Ok s1, Ok s2 => same_table s1 s2
  | Raise e1, Raise e2 => e1 = e2
  | _, _ => False
  end.

(** [row] is the normalization of the first record of [records] that
    the Record Normalizer accepts under the identifier [code]. *)
Definition first_accepted (records : list pyval) (code : str) (row : list str) : Prop :=
  exists pre p post,
    records = pre ++ p :: post /\
    normalize p = Ok (Append code row) /\
    forall p' row', p' ∈ pre -> normalize p' ≠ Ok (Append code row').

(** [row] is the normalization of the first record of [records] whose
    identifier is [code]. *)
Definition first_seen (records : list pyval) (code : str) (row : list str) : Prop :=
  exists pre p post,
    records = pre ++ p :: post /\
    identifier p = Ok code /\
    (forall p', p' ∈ pre -> identifier p' ≠ Ok code) /\
    normalize p = Ok (Append code row).

(** The link between the run and the records visited so far: the rows
    are the first accepted records of pairwise distinct identifiers,
    which make up the Seen-Identifier Set, and every identifier that the
    Record Normalizer accepts on a visited record is in the set. *)
Definition dedup_inv (records : list pyval) (st : state) : Prop :=
  exists codes : list str,
    NoDup codes /\ seen st = list_to_set codes /\
    Forall2 (first_accepted records) codes (rows st) /\
    forall p c r, p ∈ records -> normalize p = Ok (Append c r) -> c ∈ seen st.

(** What the Record Normalizer accepts a record as, if it does. *)
Definition accepted (p : pyval) : option (str * list str) :=
  match normalize p with
  | Ok (Append code row) => Some (code, row)
  | _ => None
  end.

(** Of a list of rows with their identifiers, those whose identifier
    is not in [seen] and has not occurred before in the list. *)
Fixpoint keep_first (seen : gset str) (l : list (str * list str))
    : list (str * list str) :=
  match l with
  | [] => []
  | (code, row) :: l' =>
    if decide (code ∈ seen) then keep_first seen l'
    else (code, row) :: keep_first ({[code]} ∪ seen) l'
  end.

(** The warnings of the failed query terms, in term order. *)
Fixpoint warnings (a : args) (net : nat -> request -> http_reply)
    (idx : nat) (queries : list str) : list line :=
  match queries with
  | [] => []
  | q :: rest =>
    match fetch_off_search (net idx) q (limit a) (lc a) with
    | Raise e => [WARN q e]
    | Ok _ => []
    end ++ warnings a net (S idx) rest
  end.

(** A Canonical Row: the trimmed, non-empty name twice, a trimmed brand
    without a comma, the formatted values of four finite floats that
    are not all at most zero, and a label of the closed set. *)
Definition canonical_row (row : list str) : Prop :=
  exists (name brand : str) (kcal prot carb fat : float) (category : str),
    row = [name; name; brand;
           format_float kcal; format_float prot;
           format_float carb; format_float fat; category] /\
    name ≠ [] /\ strip name = name /\
    strip brand = brand /\ (44 ∉ brand) /\
    finite kcal = true /\ finite prot = true /\
    finite carb = true /\ finite fat = true /\
    all_blank (kcal, prot, carb, fat) = false /\
    category ∈ map u ["meat"; "dairy"; "grains"; "bakery"; "vegetables";
                      "fruits"; "nuts"; "beverages"; "snacks"; "desserts";
                      "condiments"; "seafood"; "fastfood"; "turkish";
                      "other"]%string.

(** A text that the UTF-8 encoder takes: it holds no surrogate. *)
Definition encodable (text : str) : bool := negb (existsb is_surrogate text).

(** The record is rejected. *)
Definition rejected (seen : gset str) (p : pyval) : Prop :=
  exists why, examine seen p = Ok (Skip why).

(** The closed set of category labels. *)
Definition CATEGORIES : list str :=
  map u ["meat"; "dairy"; "grains"; "bakery"; "vegetables"; "fruits"; "nuts";
         "beverages"; "snacks"; "desserts"; "condiments"; "seafood";
         "fastfood"; "turkish"; "other"]%string.

End Exporter.

(** ** Stand-ins for the built-ins, for closed examples

    Each agrees with the interpreter on the part of its domain that the
    examples use: [ascii_lower] on ASCII strings, [float_of_digits] on
    strings of decimal digits and on strings without any digit,
    [repr_integral] on floats whose value is an integer below 10^16. *)

Arguments u : simpl never.
Arguments strip : simpl never.
Arguments first_brand : simpl never.
Arguments CATEGORY_MAP : simpl never.

Definition is_ascii (s : str) : bool := forallb (fun c => c <? 128) s.

Definition ascii_lower (s : str) : str :=
  map (fun c => if (65 <=? c) && (c <=? 90) then c + 32 else c) s.

Definition digit_value (c : N) : option Z :=
  if (48 <=? c) && (c <=? 57) then Some (Z.of_N (c - 48)) else None.

Fixpoint digits_value (acc : Z) (s : str) : option Z :=
  match s with
  | [] => Some acc
  | c :: r =>
    match digit_value c with
    | Some d => digits_value (10 * acc + d) r
    | None => None
    end
  end.

Definition float_of_digits (s : str) : option float :=
  match s with
  | [] => None
  | _ => z ← digits_value 0 s; Some (SF2Prim (binary_normalize prec emax z 0 false))
  end.

Fixpoint decimal (fuel : nat) (n : Z) (acc : str) : str :=
  match fuel with
  | O => acc
  | S fuel' =>
    let acc' := Z.to_N (48 + n mod 10) :: acc in
    if (n <? 10)%Z then acc' else decimal fuel' (n / 10) acc'
  end.

Definition repr_integral (f : float) : str :=
  match Prim2SF f with
  | S754_zero s => (if s then [45] else []) ++ u "0.0"
  | S754_finite s m e =>
    (if s then [45] else [])
      ++ decimal 17 (if (0 <=? e)%Z then Z.pos m * 2 ^ e else Z.pos m / 2 ^ (- e))%Z []
      ++ u ".0"
  | _ => []
  end.

(** ** Properties *)

(** ** Records and networks of the closed examples *)

Definition example_args : args :=
  {| out := u "Nutrition/foods.csv"; limit := 60; lc := u "tr" |}.

(** A 200 response whose body is the object [{"products": products}]. *)
Definition found (products : list pyval) : http_reply :=
  Response 200 (Ok (VDict [(u "products", VList products)])).

(** Identifier "X1", brand "A", a name, no nutrient at all. *)
Definition blank_X1 : pyval :=
  VDict [(u "code", VStr (u "X1")); (u "product_name", VStr (u "n"));
         (u "brands", VStr (u "A"))].

(** Identifier "X1", brand "B", a name, 100 kcal. *)
Definition full_X1 : pyval :=
  VDict [(u "code", VStr (u "X1")); (u "product_name", VStr (u "n"));
         (u "brands", VStr (u "B"));
         (u "nutriments", VDict [(u "energy-kcal_100g", VInt 100)])].

(** Identifier "P7", energy 0 and protein 0.1, no name. *)
Definition protein_only : pyval :=
  VDict [(u "code", VStr (u "P7"));
         (u "nutriments",
          VDict [(u "energy-kcal_100g", VInt 0);
                 (u "proteins_100g", VFloat 0.1)])].

(** Identifier "S1", 100 kcal, and the name that the JSON string
    ["\ud800"] decodes to: one lone surrogate. *)
Definition lone_surrogate : pyval :=
  VDict [(u "code", VStr (u "S1")); (u "product_name", VStr [55296]);
         (u "nutriments", VDict [(u "energy-kcal_100g", VInt 100)])].

Definition row_lone_surrogate : list str :=
  [55296] :: [55296] :: [] :: map u ["100.0"; "0.0"; "0.0"; "0.0"; "other"]%string.

(** The first term surfaces [blank_X1], the second [full_X1]. *)
Definition blank_then_full (idx : nat) (_ : request) : http_reply :=
  match idx with
  | O => found [blank_X1]
  | S O => found [full_X1]
  | _ => found []
  end.

(** The first request is answered with status 503. *)
Definition down_then_full (idx : nat) (_ : request) : http_reply :=
  match idx with
  | O => Response 503 (Raise JSONDecodeError)
  | S O => found [full_X1]
  | _ => found []
  end.

Definition row_full_X1 : list str :=
  map u ["n"; "n"; "B"; "100.0"; "0.0"; "0.0"; "0.0"; "other"]%string.

Definition after_blank_then_full : state :=
  {| seen := {[u "X1"]}; rows := [row_full_X1]; stdout := []; naps := 2 |}.

Definition after_down_then_full : state :=
  {| seen := {[u "X1"]}; rows := [row_full_X1];
     stdout := [WARN (u "a") RuntimeError]; naps := 1 |}.

Local Close Scope N_scope.

(** ** Encoding *)

Ltac div_lia := zify; Z.to_euclidean_division_equations; lia.

Lemma utf8_decode_char (c : N) (rest : bytes) :
  utf8_decode (utf8_encode_char c ++ rest) = c :: utf8_decode rest.
Proof.
  unfold utf8_encode_char.
  destruct (c <? 128)%N eqn:H1.
  - cbn [app utf8_decode]. rewrite H1. reflexivity.
  - apply N.ltb_ge in H1. destruct (c <? 2048)%N eqn:H2.
    + apply N.ltb_lt in H2. cbn [app utf8_decode].
      assert (E1 : (192 + c / 64 <? 128)%N = false) by (apply N.ltb_ge; div_lia).
      assert (E2 : (192 + c / 64 <? 224)%N = true) by (apply N.ltb_lt; div_lia).
      rewrite E1, E2. f_equal. div_lia.
    + apply N.ltb_ge in H2. destruct (c <? 65536)%N eqn:H3.
      * apply N.ltb_lt in H3. cbn [app utf8_decode].
        assert (E1 : (224 + c / 4096 <? 128)%N = false) by (apply N.ltb_ge; div_lia).
        assert (E2 : (224 + c / 4096 <? 224)%N = false) by (apply N.ltb_ge; div_lia).
        assert (E3 : (224 + c / 4096 <? 240)%N = true) by (apply N.ltb_lt; div_lia).
        rewrite E1, E2, E3. f_equal. div_lia.
      * apply N.ltb_ge in H3. cbn [app utf8_decode].
        assert (E1 : (240 + c / 262144 <? 128)%N = false) by (apply N.ltb_ge; div_lia).
        assert (E2 : (240 + c / 262144 <? 224)%N = false) by (apply N.ltb_ge; div_lia).
        assert (E3 : (240 + c / 262144 <? 240)%N = false) by (apply N.ltb_ge; div_lia).
        rewrite E1, E2, E3. f_equal. div_lia.
Qed.

Lemma utf8_encode_char_bytes (c : N) :
  (c <= 1114111)%N -> Forall (fun b => (b < 256)%N) (utf8_encode_char c).
Proof.
  intros Hc. unfold utf8_encode_char.
  destruct (c <? 128)%N eqn:H1; [apply N.ltb_lt in H1|apply N.ltb_ge in H1;
  destruct (c <? 2048)%N eqn:H2; [apply N.ltb_lt in H2|apply N.ltb_ge in H2;
  destruct (c <? 65536)%N eqn:H3; [apply N.ltb_lt in H3|apply N.ltb_ge in H3]]];
  repeat constructor; div_lia.
Qed.

(** Decoding gives back the text that was encoded. *)
Lemma utf8_decode_encode (text : str) :
  utf8_decode (flat_map utf8_encode_char text) = text.
Proof.
  induction text as [|c text IH]; [reflexivity|].
  cbn [flat_map]. rewrite utf8_decode_char, IH. reflexivity.
Qed.

Lemma utf8_encode_encodable (text : str) :
  encodable text = true -> utf8_encode text = Ok (flat_map utf8_encode_char text).
Proof.
  unfold encodable, utf8_encode.
  destruct (existsb is_surrogate text); [discriminate | reflexivity].
Qed.

Lemma utf8_encode_unencodable (text : str) :
  encodable text = false -> utf8_encode text = Raise UnicodeEncodeError.
Proof.
  unfold encodable, utf8_encode.
  destruct (existsb is_surrogate text); [reflexivity | discriminate].
Qed.

Lemma encodable_cons (c : N) (text : str) :
  encodable (c :: text) = negb (is_surrogate c) && encodable text.
Proof. unfold encodable. cbn [existsb]. apply negb_orb. Qed.

Lemma encodable_app (a b : str) :
  encodable (a ++ b) = encodable a && encodable b.
Proof. unfold encodable. rewrite existsb_app. apply negb_orb. Qed.

Lemma double_quotes_encodable (field : str) :
  encodable (double_quotes field) = encodable field.
Proof.
  unfold double_quotes. induction field as [|c field IH]; [reflexivity|].
  cbn [flat_map]. rewrite encodable_app, encodable_cons, IH. f_equal.
  destruct (c =? 34)%N eqn:Hc; [apply N.eqb_eq in Hc; subst c; reflexivity|].
  rewrite encodable_cons. apply andb_true_r.
Qed.

Lemma csv_field_encodable (field : str) :
  encodable (csv_field field) = encodable field.
Proof.
  unfold csv_field. destruct (needs_quotes field); [|reflexivity].
  rewrite encodable_cons, encodable_app, double_quotes_encodable.
  change (encodable [34%N]) with true. rewrite andb_true_r. reflexivity.
Qed.

Lemma join_encodable (fields : list str) :
  encodable (join 44 fields) = forallb encodable fields.
Proof.
  induction fields as [|f [|g fields] IH]; [reflexivity| |].
  - cbn [join forallb]. rewrite andb_true_r. reflexivity.
  - change (join 44 (f :: g :: fields)) with (f ++ 44%N :: join 44 (g :: fields)).
    rewrite encodable_app, encodable_cons, IH. reflexivity.
Qed.

(** A row can be written exactly when each of its cells can. *)
Lemma writerow_encodable (fields : list str) :
  encodable (writerow fields) = forallb encodable fields.
Proof.
  assert (Hjoin : forall fs : list str,
            encodable (join 44 (map csv_field fs) ++ [13; 10]%N)
            = forallb encodable fs).
  { intros fs. rewrite encodable_app, join_encodable.
    change (encodable [13; 10]%N) with true. rewrite andb_true_r.
    induction fs as [|f fs IH]; [reflexivity|].
    cbn [map forallb]. rewrite csv_field_encodable, IH. reflexivity. }
  destruct fields as [|[|c f] [|g fields]]; try reflexivity; apply Hjoin.
Qed.

Lemma writerows_encodable (rs : list (list str)) :
  encodable (writerows rs) = forallb (forallb encodable) rs.
Proof.
  unfold writerows. induction rs as [|r rs IH]; [reflexivity|].
  cbn [map concat forallb]. rewrite encodable_app, writerow_encodable, IH.
  reflexivity.
Qed.

Lemma HEADER_encodable : encodable (writerow HEADER) = true.
Proof. vm_compute. reflexivity. Qed.

Lemma table_encodable (rs : list (list str)) :
  forallb (forallb encodable) rs = true ->
  encodable (writerow HEADER ++ writerows rs) = true.
Proof.
  intros Hrs. rewrite encodable_app, HEADER_encodable, writerows_encodable, Hrs.
  reflexivity.
Qed.

(** The first row that cannot be written. *)
Lemma first_unencodable (rs : list (list str)) :
  forallb (forallb encodable) rs = false ->
  exists before r after,
    rs = before ++ r :: after /\
    forallb (forallb encodable) before = true /\ forallb encodable r = false.
Proof.
  induction rs as [|r rs IH]; [discriminate|]. cbn [forallb].
  destruct (forallb encodable r) eqn:Hr.
  - intros (before & r' & after & -> & Hb & Hr')%IH.
    exists (r :: before), r', after. cbn [forallb]. rewrite Hr, Hb. auto.
  - intros _. exists [], r, rs. auto.
Qed.

Section Properties.

Variable str_lower : str -> str.
Variable float_of_str : str -> option float.
Variable format_float : float -> str.

Lemma finite_zero : finite 0%float = true.
Proof. reflexivity. Qed.

Lemma sanitize_finite (f : float) :
  finite (if isnan f || isinf f then 0%float else f) = true.
Proof.
  unfold finite. destruct (isnan f) eqn:Hn, (isinf f) eqn:Hi; simpl;
    rewrite ?Hn, ?Hi; reflexivity.
Qed.

(** What [to_float] answers in terms of the coercion [float(value)]. *)
Lemma to_float_spec (value : pyval) :
  to_float float_of_str value =
  Ok match py_float float_of_str value with
     | Ok f => if isnan f || isinf f then 0%float else f
     | Raise _ => 0%float
     end.
Proof.
  unfold to_float. destruct (py_float float_of_str value) as [f|e]; simpl.
  - destruct (isnan f || isinf f); reflexivity.
  - reflexivity.
Qed.

(** C4: the Numeric Sanitizer has no error path and its result is always
    a finite float: it is the coerced number when the coercion succeeds
    with a finite result, and [0.0] when the coercion raises or gives NaN
    or an infinity; an absent value, NaN, both infinities and every string
    that [float] refuses give [0.0]. *)
Theorem to_float_total_finite :
  (forall value : pyval,
     exists f : float,
       to_float float_of_str value = Ok f /\ finite f = true /\
       match py_float float_of_str value with
       | Ok g => f = if finite g then g else 0%float
       | Raise _ => f = 0%float
       end) /\
  to_float float_of_str VNone = Ok 0%float /\
  to_float float_of_str (VFloat nan) = Ok 0%float /\
  to_float float_of_str (VFloat infinity) = Ok 0%float /\
  to_float float_of_str (VFloat neg_infinity) = Ok 0%float /\
  (forall s : str,
     match float_of_str s with
     | None => to_float float_of_str (VStr s) = Ok 0%float
     | Some g => to_float float_of_str (VStr s) = Ok (if finite g then g else 0%float)
     end) /\
  (forall l, to_float float_of_str (VList l) = Ok 0%float) /\
  (forall d, to_float float_of_str (VDict d) = Ok 0%float).
Proof.
  assert (Hfin : forall g, (if isnan g || isinf g then 0%float else g)
                           = if finite g then g else 0%float).
  { intros g. unfold finite. destruct (isnan g), (isinf g); reflexivity. }
  repeat split; try reflexivity.
  - intros value. rewrite to_float_spec.
    destruct (py_float float_of_str value) as [g|e] eqn:Hc.
    + exists (if isnan g || isinf g then 0%float else g).
      split; [reflexivity|]. split; [apply sanitize_finite | apply Hfin].
    + exists 0%float. repeat split.
  - intros s. rewrite to_float_spec. simpl.
    destruct (float_of_str s) as [g|]; [rewrite Hfin|]; reflexivity.
Qed.

(** *** The Category Classifier *)

Lemma scan_keys_Some table tag value :
  scan_keys table tag = Some value ->
  exists j key,
    table !! j = Some (key, value) /\ contains key tag = true /\
    forall j' key' value',
      j' < j -> table !! j' = Some (key', value') -> contains key' tag = false.
Proof.
  induction table as [|[k v] table IH]; simpl; [discriminate|].
  destruct (contains k tag) eqn:Hk.
  - intros [= <-]. exists 0, k. repeat split; auto. intros; lia.
  - intros H. destruct (IH H) as (j & key & Hj & Hin & Hbefore).
    exists (S j), key. repeat split; auto.
    intros [|j'] key' value' Hlt; simpl.
    + intros [= <- <-]. exact Hk.
    + apply Hbefore. lia.
Qed.

Lemma scan_keys_None table tag :
  scan_keys table tag = None ->
  forall key value, (key, value) ∈ table -> contains key tag = false.
Proof.
  induction table as [|[k v] table IH]; simpl; intros H key value Hin.
  - inversion Hin.
  - destruct (contains k tag) eqn:Hk; [discriminate|].
    apply elem_of_cons in Hin as [[= -> ->]|Hin]; eauto.
Qed.

Lemma scan_tags_spec (lowered : list str) :
  first_match lowered (scan_tags lowered) \/
  (scan_tags lowered = u "other" /\ no_match lowered).
Proof.
  induction lowered as [|tag rest IH]; cbn [scan_tags].
  - right. split; [reflexivity|]. intros tag key c Hin. inversion Hin.
  - destruct (scan_keys CATEGORY_MAP tag) as [value|] eqn:Hs.
    + left. destruct (scan_keys_Some _ _ _ Hs) as (j & key & Hj & Hin & Hbefore).
      exists 0, j, tag, key. repeat split; auto. intros; lia.
    + pose proof (scan_keys_None _ _ Hs) as Hnone.
      destruct IH as [(i & j & tag' & key & Hi & Hj & Hin & Hkeys & Htags)|[Ho Hno]].
      * left. exists (S i), j, tag', key. repeat split; auto.
        intros [|i'] tag'' key' c' Hlt; simpl.
        -- intros [= <-]. apply Hnone.
        -- apply Htags. lia.
      * right. split; [exact Ho|].
        intros tag' key c Hin. apply elem_of_cons in Hin as [->|Hin]; eauto.
Qed.

Lemma lower_all_strs (tags : list str) :
  lower_all str_lower (map VStr tags) = Ok (map str_lower tags).
Proof.
  induction tags as [|t tags IH]; simpl; [reflexivity|].
  rewrite IH. reflexivity.
Qed.

Lemma map_category_strs (tags : list str) :
  map_category str_lower (VList (map VStr tags)) = Ok (scan_tags (map str_lower tags)).
Proof.
  destruct tags as [|t tags]; [reflexivity|].
  pose proof (lower_all_strs (t :: tags)) as Hl.
  unfold map_category. cbn [map] in *. cbn [truthy negb py_iter].
  unfold mbind, result_bind at 1. rewrite Hl. reflexivity.
Qed.

Lemma CATEGORY_MAP_closed :
  Forall (fun kv : str * str => kv.2 ∈ CATEGORIES) CATEGORY_MAP.
Proof. apply (bool_decide_unpack _). vm_compute. exact I. Qed.

Lemma scan_tags_closed (lowered : list str) : scan_tags lowered ∈ CATEGORIES.
Proof.
  destruct (scan_tags_spec lowered) as [(i & j & tag & key & _ & Hj & _)|[-> _]].
  - apply list_elem_of_lookup_2 in Hj.
    exact (proj1 (Forall_forall _ _) CATEGORY_MAP_closed _ Hj).
  - apply (bool_decide_unpack _). vm_compute. exact I.
Qed.

(** C2: the Category Classifier lower-cases the tags, scans them in their
    order and the keyword table in its order, and the first keyword found
    inside a tag decides; without any match, and for no tags at all, the
    answer is "other".  The answer is therefore always in the closed set;
    "en:chicken-breast" gives "meat" and "en:unknown-thing" gives
    "other".  The examples rely on [lower] leaving lower-case ASCII
    alone. *)
Theorem map_category_first_match :
  (forall s, is_ascii s = true -> str_lower s = ascii_lower s) ->
  (forall tags : list str,
     exists c,
       map_category str_lower (VList (map VStr tags)) = Ok c /\
       c ∈ CATEGORIES /\
       (first_match (map str_lower tags) c \/
        (c = u "other" /\ no_match (map str_lower tags)))) /\
  map_category str_lower (VList []) = Ok (u "other") /\
  map_category str_lower (VList [VStr (u "en:chicken-breast")]) = Ok (u "meat") /\
  map_category str_lower (VList [VStr (u "en:unknown-thing")]) = Ok (u "other").
Proof.
  intros Hlower. split; [|split; [reflexivity|split]].
  - intros tags. exists (scan_tags (map str_lower tags)).
    split; [apply map_category_strs|].
    split; [apply scan_tags_closed | apply scan_tags_spec].
  - pose proof (map_category_strs [u "en:chicken-breast"]) as H.
    cbn [map] in H. rewrite H, Hlower by (vm_compute; reflexivity).
    vm_compute. reflexivity.
  - pose proof (map_category_strs [u "en:unknown-thing"]) as H.
    cbn [map] in H. rewrite H, Hlower by (vm_compute; reflexivity).
    vm_compute. reflexivity.
Qed.

(** *** The loop body *)

Lemma to_float_returns (value : pyval) :
  exists f, to_float float_of_str value = Ok f /\ finite f = true.
Proof.
  rewrite to_float_spec. eexists. split; [reflexivity|].
  destruct (py_float float_of_str value) as [g|e];
    [apply sanitize_finite | reflexivity].
Qed.

Lemma bind_Ok {A B} (a : A) (k : A -> result B) : Ok a ≫= k = k a.
Proof. reflexivity. Qed.

Lemma bind_Raise {A B} (e : exn) (k : A -> result B) : Raise e ≫= k = Raise e.
Proof. reflexivity. Qed.

(** Runs a monadic term by cases on the results of its atomic steps. *)
Ltac run_binds :=
  repeat first
    [ rewrite bind_Ok
    | rewrite bind_Raise
    | progress cbv beta iota zeta
    | match goal with
      | |- context [mbind _ ?m] =>
        lazymatch m with
        | mbind _ _ => fail
        | Ok _ => fail
        | Raise _ => fail
        | _ => destruct m
        end
      | |- context [if ?b then _ else _] => destruct b
      end
    | reflexivity ].

(** The loop body, gate by gate. *)
Lemma examine_gates (seen : gset str) (p : pyval) :
  examine str_lower float_of_str format_float seen p =
  (code ← identifier p;
   if bool_decide (code = []) then mret (Skip EmptyCode)
   else if bool_decide (code ∈ seen) then mret (Skip Duplicate)
   else
     m ← macros float_of_str p;
     if all_blank m then mret (Skip AllBlank)
     else
       name ← display_name p;
       if bool_decide (name = []) then mret (Skip NoName)
       else
         row ← row_of str_lower format_float p name m;
         mret (Append code row)).
Proof.
  unfold examine, identifier, macros, display_name, row_of, all_blank,
    mret, result_ret.
  run_binds.
Qed.

Lemma examine_Append (seen : gset str) (p : pyval) (code : str) (row : list str) :
  examine str_lower float_of_str format_float seen p = Ok (Append code row) ->
  identifier p = Ok code /\ code ≠ [] /\ (code ∉ seen) /\
  exists m name,
    macros float_of_str p = Ok m /\ all_blank m = false /\
    display_name p = Ok name /\ name ≠ [] /\
    row_of str_lower format_float p name m = Ok row.
Proof.
  rewrite examine_gates.
  destruct (identifier p) as [c|e]; [rewrite bind_Ok | discriminate].
  case_bool_decide as Hc; [discriminate|].
  case_bool_decide as Hs; [discriminate|].
  destruct (macros float_of_str p) as [m|e]; [rewrite bind_Ok | discriminate].
  destruct (all_blank m) eqn:Hm; [discriminate|].
  destruct (display_name p) as [name|e]; [rewrite bind_Ok | discriminate].
  case_bool_decide as Hn; [discriminate|].
  destruct (row_of str_lower format_float p name m) as [r|e] eqn:Hr;
    [rewrite bind_Ok | discriminate].
  intros [= <- <-]. repeat split; auto. exists m, name. auto.
Qed.

(** The identifiers accepted so far matter through the duplicate test
    only. *)
Lemma examine_seen (seen : gset str) (p : pyval) :
  examine str_lower float_of_str format_float seen p =
  (code ← identifier p;
   if bool_decide (code = []) then mret (Skip EmptyCode)
   else if bool_decide (code ∈ seen) then mret (Skip Duplicate)
   else normalize str_lower float_of_str format_float p).
Proof.
  unfold normalize. rewrite !examine_gates.
  destruct (identifier p) as [c|e]; [rewrite !bind_Ok | reflexivity].
  case_bool_decide as Hc; [reflexivity|].
  rewrite (bool_decide_eq_false_2 _ (not_elem_of_empty (C:=gset str) c)).
  reflexivity.
Qed.

Lemma normalize_Append (p : pyval) (code : str) (row : list str) :
  normalize str_lower float_of_str format_float p = Ok (Append code row) ->
  identifier p = Ok code /\ code ≠ [].
Proof. intros H. apply examine_Append in H. tauto. Qed.

Lemma normalize_not_Duplicate (p : pyval) :
  normalize str_lower float_of_str format_float p ≠ Ok (Skip Duplicate).
Proof.
  unfold normalize. rewrite examine_gates.
  destruct (identifier p) as [c|e]; [rewrite bind_Ok | discriminate].
  case_bool_decide; [discriminate|].
  rewrite (bool_decide_eq_false_2 _ (not_elem_of_empty (C:=gset str) c)).
  destruct (macros float_of_str p) as [m|e]; [rewrite bind_Ok | discriminate].
  destruct (all_blank m); [discriminate|].
  destruct (display_name p) as [name|e]; [rewrite bind_Ok | discriminate].
  case_bool_decide; [discriminate|].
  destruct (row_of str_lower format_float p name m); discriminate.
Qed.

Lemma row_of_shape (p : pyval) (name : str) m (row : list str) :
  row_of str_lower format_float p name m = Ok row ->
  exists rest, row = name :: name :: rest /\ length rest = 6.
Proof.
  unfold row_of. destruct m as [[[kcal prot] carb] fat].
  destruct (get p (u "brands")) as [b|e]; [rewrite bind_Ok | discriminate].
  destruct (py_strip (py_or b (VStr []))) as [bs|e]; [rewrite bind_Ok | discriminate].
  destruct (get p (u "categories_tags")) as [t|e]; [rewrite bind_Ok | discriminate].
  destruct (map_category str_lower (py_or t (VList []))) as [c|e];
    [rewrite bind_Ok | discriminate].
  intros [= <-]. eexists. split; reflexivity.
Qed.

(** *** Records of the raw-record data model *)

Lemma str_field (d : list (str * pyval)) (k : str) :
  absent_or is_str d k ->
  exists s, (v ← get (VDict d) k; py_strip (py_or v (VStr []))) = Ok s.
Proof.
  unfold absent_or, get, get_default. rewrite bind_Ok.
  destruct (assoc k d) as [[]|]; cbn [default from_option id is_str];
    intros H; try solve [destruct H]; unfold py_or;
    cbn [truthy default from_option id];
    try match goal with |- context [if ?b then _ else _] => destruct b end;
    eexists; reflexivity.
Qed.

Lemma macros_returns (d : list (str * pyval)) :
  absent_or is_dict d (u "nutriments") ->
  exists m, macros float_of_str (VDict d) = Ok m.
Proof.
  unfold absent_or, macros.
  change (get (VDict d) (u "nutriments"))
    with (Ok (A:=pyval) (default VNone (assoc (u "nutriments") d))).
  rewrite bind_Ok. cbv beta zeta.
  assert (Hd : forall d', exists m,
    (kcal ← get (VDict d') (u "energy-kcal_100g") ≫= to_float float_of_str;
     prot ← get (VDict d') (u "proteins_100g") ≫= to_float float_of_str;
     carb ← get (VDict d') (u "carbohydrates_100g") ≫= to_float float_of_str;
     fat ← get (VDict d') (u "fat_100g") ≫= to_float float_of_str;
     mret (kcal, prot, carb, fat)) = Ok m).
  { intros d'. unfold get, get_default. rewrite !bind_Ok.
    repeat match goal with
    | |- context [to_float float_of_str ?v] =>
      let f := fresh "f" in let H := fresh "H" in
      destruct (to_float_returns v) as (f & H & _); rewrite H, bind_Ok
    end.
    eexists. reflexivity. }
  destruct (assoc (u "nutriments") d) as [[]|]; cbn [default from_option id is_dict];
    intros H; try solve [destruct H]; unfold py_or;
    cbn [truthy default from_option id];
    try match goal with |- context [if ?b then _ else _] => destruct b end;
    apply Hd.
Qed.

Lemma lower_all_returns (l : list pyval) :
  forallb is_str l = true -> exists tags, lower_all str_lower l = Ok tags.
Proof.
  induction l as [|v l IH]; cbn [forallb lower_all]; [eexists; reflexivity|].
  intros [Hv Hl]%andb_true_iff. destruct v; try discriminate.
  destruct (IH Hl) as [tags ->]. rewrite bind_Ok. eexists. reflexivity.
Qed.

Lemma map_category_returns (d : list (str * pyval)) :
  absent_or is_str_list d (u "categories_tags") ->
  exists c,
    (t ← get (VDict d) (u "categories_tags");
     map_category str_lower (py_or t (VList []))) = Ok c.
Proof.
  unfold absent_or, get, get_default. rewrite bind_Ok.
  assert (Hl : forall l, forallb is_str l = true ->
                         exists c, map_category str_lower (VList l) = Ok c).
  { intros l Hl. unfold map_category.
    destruct (negb (truthy (VList l))); [eexists; reflexivity|].
    cbn [py_iter]. rewrite bind_Ok.
    destruct (lower_all_returns l Hl) as [tags ->]. rewrite bind_Ok.
    eexists. reflexivity. }
  destruct (assoc (u "categories_tags") d) as [[]|]; cbn [default from_option id is_str_list];
    intros H; try solve [destruct H]; unfold py_or;
    cbn [truthy default from_option id];
    try match goal with |- context [if ?b then _ else _] => destruct b end;
    apply Hl; try reflexivity; apply Is_true_true_1, H.
Qed.


Lemma display_name_returns (p : pyval) :
  raw_record p = true -> exists name, display_name p = Ok name.
Proof.
  destruct p as [| | | | | |d]; try discriminate. cbn [raw_record].
  rewrite !andb_true_iff. intros [[[[_ Hn] _] _] _].
  apply Is_true_true_2 in Hn. exact (str_field _ _ Hn).
Qed.

(** On a record of the raw-record data model the loop body returns. *)
Lemma examine_returns (p : pyval) (seen : gset str) :
  raw_record p = true ->
  exists v, examine str_lower float_of_str format_float seen p = Ok v.
Proof.
  destruct p as [| | | | | |d]; try discriminate. cbn [raw_record].
  rewrite !andb_true_iff. intros [[[[Hc Hn] Hb] Hm] Ht].
  apply Is_true_true_2 in Hc, Hn, Hb, Hm, Ht.
  rewrite examine_gates.
  destruct (str_field _ _ Hc) as [code Hcode]. unfold identifier.
  rewrite Hcode, bind_Ok.
  case_bool_decide; [eexists; reflexivity|].
  case_bool_decide; [eexists; reflexivity|].
  destruct (macros_returns _ Hm) as [m ->]. rewrite bind_Ok.
  destruct (all_blank m); [eexists; reflexivity|].
  destruct (str_field _ _ Hn) as [name Hname]. unfold display_name.
  rewrite Hname, bind_Ok.
  case_bool_decide; [eexists; reflexivity|].
  unfold row_of. destruct m as [[[kcal prot] carb] fat].
  destruct (get (VDict d) (u "brands")) as [b|e] eqn:Hgb; [|discriminate].
  destruct (str_field _ _ Hb) as [bs Hbs]. rewrite Hgb, bind_Ok in Hbs.
  rewrite !bind_Ok, Hbs, bind_Ok.
  destruct (get (VDict d) (u "categories_tags")) as [t|e] eqn:Hgt; [|discriminate].
  destruct (map_category_returns _ Ht) as [c Hcat]. rewrite Hgt, bind_Ok in Hcat.
  rewrite !bind_Ok, Hcat, !bind_Ok. eexists. reflexivity.
Qed.

(** C8: on every record of the raw-record data model (each of the
    identifier, the name, the brand field, the nutrient sub-record and
    the tag list may be missing or null) the Record Normalizer returns:
    it gives a rejection or a row of eight cells together with the
    trimmed, non-empty identifier of the record; it never raises, whatever
    identifiers have been accepted before. *)
Theorem normalize_never_raises (p : pyval) :
  raw_record p = true ->
  forall seen : gset str,
    exists v : verdict,
      examine str_lower float_of_str format_float seen p = Ok v /\
      match v with
      | Skip _ => True
      | Append code row =>
        identifier p = Ok code /\ code ≠ [] /\ length row = 8
      end.
Proof.
  intros Hraw seen.
  destruct (examine_returns p seen Hraw) as [v Hv]. exists v. split; [exact Hv|].
  destruct v as [why|code row]; [exact I|].
  apply examine_Append in Hv as (Hid & Hne & _ & m & name & _ & _ & _ & _ & Hrow).
  apply row_of_shape in Hrow as (rest & -> & Hlen).
  repeat split; auto. cbn [length]. rewrite Hlen. reflexivity.
Qed.

(** C3: for a record with a non-empty identifier that has not been
    accepted before: a record of the raw-record data model is rejected
    exactly when its sanitized energy, protein, carbohydrate and fat are
    all at most zero or its trimmed display name is empty; the all-blank
    gate rejects exactly when the four are all at most zero, and such a
    record is never emitted; for a record that has a display name, being
    rejected at all is equivalent to that.  Four zeros are excluded;
    energy 0 with protein 0.1 passes the gate, and the record is emitted
    when it has a name. *)
Theorem macro_gate (seen : gset str) (p : pyval) (code : str)
    (kcal prot carb fat : float) :
  identifier p = Ok code -> code ≠ [] -> code ∉ seen ->
  macros float_of_str p = Ok (kcal, prot, carb, fat) ->
  let blank :=
    (kcal <=? 0)%float = true /\ (prot <=? 0)%float = true /\
    (carb <=? 0)%float = true /\ (fat <=? 0)%float = true in
  let verdict := examine str_lower float_of_str format_float seen p in
  (raw_record p = true ->
   exists name,
     display_name p = Ok name /\
     (rejected str_lower float_of_str format_float seen p <->
      blank \/ name = [])) /\
  (verdict = Ok (Skip AllBlank) <-> blank) /\
  (blank -> forall c row, verdict ≠ Ok (Append c row)) /\
  (forall name, display_name p = Ok name -> name ≠ [] ->
     ((exists why, verdict = Ok (Skip why)) <-> blank)) /\
  ((kcal, prot, carb, fat) = (0, 0, 0, 0)%float -> verdict = Ok (Skip AllBlank)) /\
  (kcal = 0%float -> prot = 0.1%float -> verdict ≠ Ok (Skip AllBlank)) /\
  (kcal = 0%float -> prot = 0.1%float -> raw_record p = true ->
   forall name, display_name p = Ok name -> name ≠ [] ->
     exists row, verdict = Ok (Append code row)).
Proof.
  intros Hid Hne Hfresh Hm blank verdict.
  assert (Hblank : blank <-> all_blank (kcal, prot, carb, fat) = true).
  { unfold blank, all_blank. rewrite !andb_true_iff. tauto. }
  assert (Hv : verdict =
    if all_blank (kcal, prot, carb, fat) then Ok (Skip AllBlank)
    else (name ← display_name p;
          if bool_decide (name = []) then mret (Skip NoName)
          else row ← row_of str_lower format_float p name (kcal, prot, carb, fat);
               mret (Append code row))).
  { unfold verdict. rewrite examine_gates, Hid, bind_Ok.
    rewrite bool_decide_eq_false_2, bool_decide_eq_false_2 by assumption.
    rewrite Hm, bind_Ok. reflexivity. }
  assert (Hpass : all_blank (kcal, prot, carb, fat) = false ->
                  verdict ≠ Ok (Skip AllBlank)).
  { intros Hf. rewrite Hv, Hf.
    destruct (display_name p) as [name|e]; [rewrite bind_Ok | discriminate].
    case_bool_decide; [discriminate|].
    destruct (row_of _ _ _ _ _); discriminate. }
  assert (Hemit : raw_record p = true -> all_blank (kcal, prot, carb, fat) = false ->
                  forall name, display_name p = Ok name -> name ≠ [] ->
                  exists row, verdict = Ok (Append code row)).
  { intros Hraw Hb name Hname Hnn.
    destruct (examine_returns p seen Hraw) as [v Hret]. fold verdict in Hret.
    rewrite Hv, Hb, Hname, bind_Ok, bool_decide_eq_false_2 in Hret by assumption.
    rewrite Hv, Hb, Hname, bind_Ok, bool_decide_eq_false_2 by assumption.
    destruct (row_of _ _ _ _ _) as [row|e]; [|discriminate].
    exists row. reflexivity. }
  split; [|split; [|split; [|split; [|split; [|split]]]]].
  - intros Hraw. destruct (display_name_returns p Hraw) as [name Hname].
    exists name. split; [exact Hname|]. unfold rejected. fold verdict.
    rewrite Hblank. split.
    + intros [why Hs].
      destruct (all_blank (kcal, prot, carb, fat)) eqn:Hb; [left; reflexivity|].
      right. destruct name as [|c name]; [reflexivity|].
      destruct (Hemit Hraw eq_refl _ Hname) as [row Hrow]; [discriminate|].
      rewrite Hrow in Hs. discriminate.
    + intros [Hb| ->].
      * exists AllBlank. rewrite Hv, Hb. reflexivity.
      * destruct (all_blank (kcal, prot, carb, fat)) eqn:Hb.
        -- exists AllBlank. rewrite Hv. reflexivity.
        -- exists NoName. rewrite Hv, Hname, bind_Ok. reflexivity.
  - rewrite Hblank. split.
    + intros Hs. destruct (all_blank (kcal, prot, carb, fat)) eqn:Hb; [reflexivity|].
      destruct (Hpass eq_refl Hs).
    + intros Hb. rewrite Hv, Hb. reflexivity.
  - intros Hb c row. apply Hblank in Hb. rewrite Hv, Hb. discriminate.
  - intros name Hname Hnn. rewrite Hblank. split.
    + intros [why Hs]. destruct (all_blank (kcal, prot, carb, fat)) eqn:Hb; [reflexivity|].
      rewrite Hv, Hname, bind_Ok, bool_decide_eq_false_2 in Hs by assumption.
      destruct (row_of _ _ _ _ _); discriminate.
    + intros Hb. exists AllBlank. rewrite Hv, Hb. reflexivity.
  - intros [= -> -> -> ->]. rewrite Hv. reflexivity.
  - intros -> ->. apply Hpass. reflexivity.
  - intros -> -> Hraw. apply (Hemit Hraw). reflexivity.
Qed.


(** *** The loops *)

Lemma visit_cases (st : state) (p : pyval) (st' : state) :
  visit str_lower float_of_str format_float st p = Ok st' ->
  (exists why,
      examine str_lower float_of_str format_float (seen st) p = Ok (Skip why) /\
      st' = st) \/
  (exists code row,
      examine str_lower float_of_str format_float (seen st) p = Ok (Append code row) /\
      normalize str_lower float_of_str format_float p = Ok (Append code row) /\
      (code ∉ seen st) /\
      st' = commit st (Append code row)).
Proof.
  unfold visit.
  destruct (examine str_lower float_of_str format_float (seen st) p) as [[why|code row]|e] eqn:Hv;
    rewrite ?bind_Ok; try discriminate; intros [= <-].
  - left. eauto.
  - right. exists code, row. repeat split; auto.
    + pose proof Hv as Hv'. apply examine_Append in Hv' as (Hid & Hne & Hs & _).
      rewrite examine_seen, Hid, bind_Ok in Hv.
      rewrite !bool_decide_eq_false_2 in Hv by assumption. exact Hv.
    + apply examine_Append in Hv. tauto.
Qed.

Lemma for_products_app (st : state) (ps qs : list pyval) :
  for_products str_lower float_of_str format_float st (ps ++ qs) =
  (st' ← for_products str_lower float_of_str format_float st ps;
   for_products str_lower float_of_str format_float st' qs).
Proof.
  revert st. induction ps as [|p ps IH]; intros st; cbn [for_products app].
  - reflexivity.
  - destruct (visit str_lower float_of_str format_float st p) as [st1|e];
      rewrite ?bind_Ok, ?bind_Raise; [apply IH | reflexivity].
Qed.

Lemma for_queries_app (a : args) net (qs rs : list str) (idx : nat) (st : state) :
  for_queries str_lower float_of_str format_float a net idx st (qs ++ rs) =
  (st' ← for_queries str_lower float_of_str format_float a net idx st qs;
   for_queries str_lower float_of_str format_float a net (idx + length qs) st' rs).
Proof.
  revert idx st. induction qs as [|q qs IH]; intros idx st; cbn [for_queries app length].
  - rewrite Nat.add_0_r. reflexivity.
  - destruct (query str_lower float_of_str format_float a (net idx) st q) as [st1|e];
      rewrite ?bind_Ok, ?bind_Raise; [|reflexivity].
    rewrite IH. replace (S idx + length qs) with (idx + S (length qs)) by lia.
    reflexivity.
Qed.

(** What a round of the outer loop does, by the outcome of the request. *)
Lemma query_cases (a : args) urlopen (st : state) (q : str) (st' : state) :
  query str_lower float_of_str format_float a urlopen st q = Ok st' ->
  (exists e,
      fetch_off_search urlopen q (limit a) (lc a) = Raise e /\
      st' = print st (WARN q e)) \/
  (exists products ps st1,
      fetch_off_search urlopen q (limit a) (lc a) = Ok products /\
      py_iter products = Ok ps /\
      for_products str_lower float_of_str format_float st ps = Ok st1 /\
      st' = sleep st1).
Proof.
  unfold query.
  destruct (fetch_off_search urlopen q (limit a) (lc a)) as [products|e].
  - destruct (py_iter products) as [ps|e] eqn:Hit; rewrite ?bind_Ok; [|discriminate].
    destruct (for_products str_lower float_of_str format_float st ps) as [st1|e] eqn:Hfp;
      rewrite ?bind_Ok; [|discriminate].
    intros [= <-]. right. exists products, ps, st1. repeat split; auto.
  - intros [= <-]. left. eauto.
Qed.

(** A property of the state that printing and sleeping keep and that
    every visit of a record keeps holds at the end of the run. *)
Lemma for_queries_invariant (I : state -> Prop) (a : args) net :
  (forall st l, I st -> I (print st l)) ->
  (forall st, I st -> I (sleep st)) ->
  (forall st p st',
      I st -> visit str_lower float_of_str format_float st p = Ok st' -> I st') ->
  forall queries idx st st',
    I st ->
    for_queries str_lower float_of_str format_float a net idx st queries = Ok st' ->
    I st'.
Proof.
  intros Hprint Hsleep Hvisit.
  assert (Hps : forall ps st st', I st ->
            for_products str_lower float_of_str format_float st ps = Ok st' -> I st').
  { induction ps as [|p ps IH]; intros st st' HI; cbn [for_products].
    - intros [= <-]. exact HI.
    - destruct (visit str_lower float_of_str format_float st p) as [st1|e] eqn:Hv;
        rewrite ?bind_Ok; [|discriminate].
      apply IH. eauto. }
  induction queries as [|q queries IH]; intros idx st st' HI; cbn [for_queries].
  - intros [= <-]. exact HI.
  - destruct (query str_lower float_of_str format_float a (net idx) st q) as [st1|e] eqn:Hq;
      rewrite ?bind_Ok; [|discriminate].
    apply IH.
    apply query_cases in Hq as [(e & _ & ->)|(products & ps & st2 & _ & _ & Hfp & ->)];
      eauto.
Qed.


Lemma rows_as_many_as_seen (a : args) net (queries : list str) (st : state) :
  for_queries str_lower float_of_str format_float a net 0 initial queries = Ok st ->
  length (rows st) = size (seen st).
Proof.
  intros Hrun.
  apply (for_queries_invariant
           (fun st => length (rows st) = size (seen st)) a net)
    with (idx := 0) (st := initial) (queries := queries); auto.
  intros s p s' HI Hv.
  apply visit_cases in Hv as [(why & _ & ->)|(code & row & _ & _ & Hfresh & ->)];
    [exact HI|].
  cbn [commit rows seen]. rewrite length_app, size_union by set_solver.
  rewrite size_singleton, HI. cbn [length]. lia.
Qed.

(** C6: at the end of every run the Output Table has as many rows as
    the Seen-Identifier Set has identifiers: a visit either rejects the
    record and changes neither, or appends one row and adds one
    identifier that was not in the set. *)
Theorem rows_count_is_seen_size :
  (forall (a : args) net queries st,
     for_queries str_lower float_of_str format_float a net 0 initial queries = Ok st ->
     length (rows st) = size (seen st)) /\
  (forall st p st',
     visit str_lower float_of_str format_float st p = Ok st' ->
     (exists why,
         examine str_lower float_of_str format_float (seen st) p = Ok (Skip why) /\
         seen st' = seen st /\ rows st' = rows st) \/
     (exists code row,
         examine str_lower float_of_str format_float (seen st) p = Ok (Append code row) /\
         (code ∉ seen st) /\
         seen st' = {[code]} ∪ seen st /\ rows st' = rows st ++ [row])).
Proof.
  split.
  - apply rows_as_many_as_seen.
  - intros st p st' Hv.
    apply visit_cases in Hv as [(why & Hs & ->)|(code & row & Ha & _ & Hfresh & ->)].
    + left. eauto.
    + right. exists code, row. auto.
Qed.

(** C7: every row of the Output Table starts with the display name,
    twice, and that name is not empty; a record whose trimmed display
    name is empty is rejected whatever its macro values are, and so is a
    record without any [product_name]. *)
Theorem rows_have_names :
  (forall (a : args) net queries st,
     for_queries str_lower float_of_str format_float a net 0 initial queries = Ok st ->
     Forall (fun row : list str =>
               exists name rest,
                 row = name :: name :: rest /\ name ≠ [] /\ length rest = 6)
            (rows st)) /\
  (forall (seen : gset str) p v,
     display_name p = Ok [] ->
     examine str_lower float_of_str format_float seen p = Ok v ->
     exists why, v = Skip why) /\
  (forall d, assoc (u "product_name") d = None -> display_name (VDict d) = Ok []).
Proof.
  split; [|split].
  - intros a net queries st Hrun.
    apply (for_queries_invariant
             (fun st => Forall (fun row : list str =>
                exists name rest,
                  row = name :: name :: rest /\ name ≠ [] /\ length rest = 6)
                (rows st)) a net)
      with (idx := 0) (st := initial) (queries := queries); auto.
    + intros s p s' HI Hv.
      apply visit_cases in Hv as [(why & _ & ->)|(code & row & Ha & _ & _ & ->)];
        [exact HI|].
      cbn [commit rows]. apply Forall_app. split; [exact HI|].
      apply Forall_singleton.
      apply examine_Append in Ha as (_ & _ & _ & m & name & _ & _ & _ & Hn & Hrow).
      apply row_of_shape in Hrow as (rest & -> & Hlen). eauto.
  - intros seen p v Hname. rewrite examine_gates.
    destruct (identifier p) as [c|e]; [rewrite bind_Ok | discriminate].
    case_bool_decide; [intros [= <-]; eauto|].
    case_bool_decide; [intros [= <-]; eauto|].
    destruct (macros float_of_str p) as [m|e]; [rewrite bind_Ok | discriminate].
    destruct (all_blank m); [intros [= <-]; eauto|].
    rewrite Hname, bind_Ok. rewrite bool_decide_eq_true_2 by reflexivity.
    intros [= <-]; eauto.
  - intros d Hd. unfold display_name, get, get_default. rewrite Hd. reflexivity.
Qed.

(** C10: a rejected record leaves the Seen-Identifier Set and the
    accumulated rows as they were, so the run goes on as if the record
    had not been there; a later record with the same identifier that
    passes all the gates is accepted and its row appended. *)
Theorem rejection_leaves_no_trace (st : state) (p : pyval) (why : skip) :
  examine str_lower float_of_str format_float (seen st) p = Ok (Skip why) ->
  visit str_lower float_of_str format_float st p = Ok st /\
  (forall rest,
     for_products str_lower float_of_str format_float st (p :: rest) =
     for_products str_lower float_of_str format_float st rest) /\
  (forall p2 code row,
     why ≠ Duplicate ->
     identifier p2 = identifier p ->
     normalize str_lower float_of_str format_float p2 = Ok (Append code row) ->
     (code ∉ seen st) /\
     for_products str_lower float_of_str format_float st [p; p2] =
     Ok {| seen := {[code]} ∪ seen st; rows := rows st ++ [row];
           stdout := stdout st; naps := naps st |}).
Proof.
  intros Hrej.
  assert (Hv : visit str_lower float_of_str format_float st p = Ok st).
  { unfold visit. rewrite Hrej, bind_Ok. reflexivity. }
  split; [exact Hv|]. split.
  - intros rest. cbn [for_products]. rewrite Hv, bind_Ok. reflexivity.
  - intros p2 code row Hwhy Hsame Hacc.
    pose proof (normalize_Append _ _ _ Hacc) as [Hid2 Hne].
    assert (Hfresh : code ∉ seen st).
    { intros Hin. rewrite examine_seen, <- Hsame, Hid2, bind_Ok in Hrej.
      rewrite bool_decide_eq_false_2, bool_decide_eq_true_2 in Hrej by assumption.
      injection Hrej as <-. apply Hwhy. reflexivity. }
    split; [exact Hfresh|].
    cbn [for_products]. rewrite Hv, bind_Ok.
    unfold visit. rewrite examine_seen, Hid2, bind_Ok.
    rewrite !bool_decide_eq_false_2 by assumption.
    rewrite Hacc, !bind_Ok. reflexivity.
Qed.


(** *** Printing and sleeping do not influence the table *)

Lemma same_table_refl (st : state) : same_table st st.
Proof. split; reflexivity. Qed.

Lemma same_table_trans (s1 s2 s3 : state) :
  same_table s1 s2 -> same_table s2 s3 -> same_table s1 s3.
Proof. intros [H1 H2] [H3 H4]. split; congruence. Qed.

Lemma agree_bind (r1 r2 : result state) (k1 k2 : state -> result state) :
  agree r1 r2 ->
  (forall s1 s2, same_table s1 s2 -> agree (k1 s1) (k2 s2)) ->
  agree (r1 ≫= k1) (r2 ≫= k2).
Proof.
  destruct r1 as [s1|e1], r2 as [s2|e2]; cbn [agree]; try contradiction.
  - intros Hs Hk. rewrite !bind_Ok. apply Hk, Hs.
  - intros -> _. reflexivity.
Qed.

Lemma agree_Ok_r (r : result state) (s2 : state) :
  agree r (Ok s2) -> exists s1, r = Ok s1 /\ same_table s1 s2.
Proof. destruct r as [s1|e]; cbn [agree]; [eauto | contradiction]. Qed.

Lemma visit_agree (s1 s2 : state) (p : pyval) :
  same_table s1 s2 ->
  agree (visit str_lower float_of_str format_float s1 p)
        (visit str_lower float_of_str format_float s2 p).
Proof.
  intros [Hseen Hrows]. unfold visit. rewrite Hseen.
  destruct (examine str_lower float_of_str format_float (seen s2) p) as [[why|code row]|e];
    rewrite ?bind_Ok, ?bind_Raise; cbn [agree commit mret result_ret].
  - split; assumption.
  - split; cbn [seen rows]; congruence.
  - reflexivity.
Qed.

Lemma for_products_agree (ps : list pyval) (s1 s2 : state) :
  same_table s1 s2 ->
  agree (for_products str_lower float_of_str format_float s1 ps)
        (for_products str_lower float_of_str format_float s2 ps).
Proof.
  revert s1 s2. induction ps as [|p ps IH]; intros s1 s2 Hs; cbn [for_products].
  - exact Hs.
  - apply agree_bind; [apply visit_agree, Hs | exact IH].
Qed.

Lemma fetch_off_search_ext (urlopen1 urlopen2 : request -> http_reply) q n l :
  (forall r, urlopen1 r = urlopen2 r) ->
  fetch_off_search urlopen1 q n l = fetch_off_search urlopen2 q n l.
Proof. intros H. unfold fetch_off_search. rewrite H. reflexivity. Qed.

Lemma query_agree (a : args) urlopen1 urlopen2 (s1 s2 : state) (q : str) :
  (forall r, urlopen1 r = urlopen2 r) ->
  same_table s1 s2 ->
  agree (query str_lower float_of_str format_float a urlopen1 s1 q)
        (query str_lower float_of_str format_float a urlopen2 s2 q).
Proof.
  intros Hnet Hs. unfold query.
  rewrite (fetch_off_search_ext urlopen1 urlopen2) by exact Hnet.
  destruct (fetch_off_search urlopen2 q (limit a) (lc a)) as [products|e].
  - destruct (py_iter products) as [ps|e]; rewrite ?bind_Ok, ?bind_Raise;
      [|reflexivity].
    apply agree_bind; [apply for_products_agree, Hs|].
    intros t1 t2 Ht. exact Ht.
  - exact Hs.
Qed.

Lemma for_queries_agree (a : args) net1 net2 (qs : list str) :
  forall idx1 idx2 s1 s2,
    (forall k r, k < length qs -> net1 (idx1 + k) r = net2 (idx2 + k) r) ->
    same_table s1 s2 ->
    agree (for_queries str_lower float_of_str format_float a net1 idx1 s1 qs)
          (for_queries str_lower float_of_str format_float a net2 idx2 s2 qs).
Proof.
  induction qs as [|q qs IH]; intros idx1 idx2 s1 s2 Hnet Hs; cbn [for_queries].
  - exact Hs.
  - apply agree_bind.
    + apply query_agree; [|exact Hs].
      intros r. specialize (Hnet 0 r). rewrite !Nat.add_0_r in Hnet.
      apply Hnet. cbn [length]. lia.
    + intros t1 t2 Ht. apply IH; [|exact Ht].
      intros k r Hk. specialize (Hnet (S k) r).
      rewrite !Nat.add_succ_r in Hnet. apply Hnet. cbn [length]. lia.
Qed.

(** The run is the inner loop over the surfaced records, up to what was
    printed and slept. *)
Lemma for_queries_surfaced (a : args) net (queries : list str) :
  forall idx st st',
    for_queries str_lower float_of_str format_float a net idx st queries = Ok st' ->
    exists st'',
      for_products str_lower float_of_str format_float st (surfaced a net idx queries)
        = Ok st'' /\
      same_table st'' st'.
Proof.
  induction queries as [|q queries IH]; intros idx st st'; cbn [for_queries surfaced].
  - intros [= <-]. exists st. split; [reflexivity | apply same_table_refl].
  - destruct (query str_lower float_of_str format_float a (net idx) st q) as [st1|e] eqn:Hq;
      rewrite ?bind_Ok; [|discriminate].
    intros Hrest. destruct (IH _ _ _ Hrest) as (s2 & Hs2 & Ht2).
    apply query_cases in Hq as [(e & Hf & ->)|(products & ps & st2 & Hf & Hit & Hfp & ->)].
    + rewrite Hf, bind_Raise. cbn [app].
      pose proof (for_products_agree (surfaced a net (S idx) queries)
                    st (print st (WARN q e)) (same_table_refl _)) as Hag.
      rewrite Hs2 in Hag. apply agree_Ok_r in Hag as (s3 & Hs3 & Ht3).
      exists s3. split; [exact Hs3 | eapply same_table_trans; eauto].
    + rewrite Hf, bind_Ok, Hit, for_products_app, Hfp, bind_Ok.
      pose proof (for_products_agree (surfaced a net (S idx) queries)
                    st2 (sleep st2) (same_table_refl _)) as Hag.
      rewrite Hs2 in Hag. apply agree_Ok_r in Hag as (s3 & Hs3 & Ht3).
      exists s3. split; [exact Hs3 | eapply same_table_trans; eauto].
Qed.


(** C5: when the request of a query term fails (no response, a status
    outside 200..299, or a body that cannot be decoded as a JSON object),
    the term brings no record: a warning is printed and the run goes on
    with the terms that follow, from the same table; its table is the one
    of the run without that term, so no row comes from the failed term. *)
Theorem failed_query_is_skipped (a : args) net (pre : list str) (q : str)
    (post : list str) (e : exn) :
  fetch_off_search (net (length pre)) q (limit a) (lc a) = Raise e ->
  let run := for_queries str_lower float_of_str format_float a in
  let without := fun i => if decide (i < length pre) then net i else net (S i) in
  run net 0 initial (pre ++ q :: post) =
    (st ← run net 0 initial pre;
     run net (S (length pre)) (print st (WARN q e)) post) /\
  agree (run net 0 initial (pre ++ q :: post))
        (run without 0 initial (pre ++ post)) /\
  (forall st, run net 0 initial (pre ++ q :: post) = Ok st ->
              WARN q e ∈ stdout st) /\
  (forall e' q' n l,
     fetch_off_search (fun _ => NoResponse e') q' n l = Raise e') /\
  (forall status body q' n l,
     fetch_off_search (fun _ => Response status body) q' n l =
     if ((status <? 200) || (status >=? 300))%Z then Raise RuntimeError
     else data ← body; get_default data (u "products") (VList [])) /\
  (forall e' q' n l,
     fetch_off_search (fun _ => Response 200 (Raise e')) q' n l = Raise e') /\
  (forall items q' n l,
     fetch_off_search (fun _ => Response 200 (Ok (VList items))) q' n l =
     Raise AttributeError).
Proof.
  intros Hfail run without.
  assert (Hsplit : run net 0 initial (pre ++ q :: post) =
    (st ← run net 0 initial pre;
     run net (S (length pre)) (print st (WARN q e)) post)).
  { unfold run. rewrite for_queries_app. cbn [for_queries Nat.add].
    destruct (for_queries str_lower float_of_str format_float a net 0 initial pre)
      as [st|e0]; rewrite ?bind_Ok, ?bind_Raise; [|reflexivity].
    unfold query. rewrite Hfail. cbn [mret result_ret]. rewrite bind_Ok.
    reflexivity. }
  split; [exact Hsplit|]. split; [|split; [|repeat split]].
  - rewrite Hsplit. unfold run. rewrite for_queries_app.
    apply agree_bind.
    + apply for_queries_agree; [|apply same_table_refl].
      intros k r Hk. unfold without. cbn [Nat.add].
      destruct (decide (k < length pre)); [reflexivity | contradiction].
    + intros s1 s2 Hs. apply for_queries_agree.
      * intros k r _. unfold without. cbn [Nat.add].
        destruct (decide (length pre + k < length pre)); [lia|].
        reflexivity.
      * destruct Hs as [Hs1 Hs2]. split; cbn [print seen rows]; assumption.
  - intros st. rewrite Hsplit. unfold run.
    destruct (for_queries str_lower float_of_str format_float a net 0 initial pre)
      as [st1|e0]; rewrite ?bind_Ok, ?bind_Raise; [|discriminate].
    apply (for_queries_invariant (fun s => WARN q e ∈ stdout s)).
    + intros s l Hs. cbn [print stdout]. apply elem_of_app. left. exact Hs.
    + intros s Hs. exact Hs.
    + intros s p s' Hs Hv.
      apply visit_cases in Hv as [(why & _ & ->)|(code & row & _ & _ & _ & ->)];
        exact Hs.
    + cbn [print stdout]. apply elem_of_app. right. apply list_elem_of_singleton.
      reflexivity.
Qed.

(** *** Deduplication *)

Lemma first_accepted_app (records more : list pyval) (code : str) (row : list str) :
  first_accepted str_lower float_of_str format_float records code row ->
  first_accepted str_lower float_of_str format_float (records ++ more) code row.
Proof.
  intros (pre & p & post & -> & Hp & Hpre).
  exists pre, p, (post ++ more). split; [|auto].
  rewrite <- app_assoc. reflexivity.
Qed.

Lemma dedup_inv_initial : dedup_inv str_lower float_of_str format_float [] initial.
Proof.
  exists []. split; [apply NoDup_nil_2|]. split; [reflexivity|].
  split; [apply Forall2_nil_2|]. intros p c r Hin. inversion Hin.
Qed.

Lemma dedup_inv_same (records : list pyval) (s1 s2 : state) :
  same_table s1 s2 ->
  dedup_inv str_lower float_of_str format_float records s1 ->
  dedup_inv str_lower float_of_str format_float records s2.
Proof.
  intros [Hs Hr] (codes & Hnd & Hseen & Hrows & Hall).
  exists codes. rewrite <- Hs, <- Hr. auto.
Qed.

Lemma dedup_inv_visit (records : list pyval) (st : state) (p : pyval) (st' : state) :
  dedup_inv str_lower float_of_str format_float records st ->
  visit str_lower float_of_str format_float st p = Ok st' ->
  dedup_inv str_lower float_of_str format_float (records ++ [p]) st'.
Proof.
  intros (codes & Hnd & Hseen & Hrows & Hall) Hv.
  apply visit_cases in Hv as [(why & Hs & ->)|(code & row & Ha & Hn & Hfresh & ->)].
  - exists codes. split; [exact Hnd|]. split; [exact Hseen|]. split.
    + eapply Forall2_impl; [exact Hrows|]. intros c r. apply first_accepted_app.
    + intros p' c r [Hin| ->%list_elem_of_singleton]%elem_of_app Hp'; [eauto|].
      destruct (normalize_Append _ _ _ Hp') as [Hid Hne].
      rewrite examine_seen, Hid, bind_Ok in Hs.
      rewrite bool_decide_eq_false_2 in Hs by assumption.
      case_bool_decide; [assumption|]. congruence.
  - exists (codes ++ [code]). cbn [commit seen rows]. split; [|split; [|split]].
    + apply NoDup_app. split; [exact Hnd|]. split; [|apply NoDup_singleton].
      intros c Hc ->%list_elem_of_singleton. apply Hfresh. rewrite Hseen.
      apply elem_of_list_to_set. exact Hc.
    + rewrite list_to_set_app_L, Hseen. cbn [list_to_set]. set_solver.
    + apply Forall2_app.
      * eapply Forall2_impl; [exact Hrows|]. intros c r. apply first_accepted_app.
      * constructor; [|constructor].
        exists records, p, []. split; [reflexivity|]. split; [exact Hn|].
        intros p' row' Hin Hp'. apply Hfresh. eauto.
    + intros p' c r [Hin| ->%list_elem_of_singleton]%elem_of_app Hp'.
      * apply elem_of_union. right. eauto.
      * apply elem_of_union. left. apply elem_of_singleton. congruence.
Qed.

Lemma dedup_inv_products (ps : list pyval) :
  forall records st st',
    dedup_inv str_lower float_of_str format_float records st ->
    for_products str_lower float_of_str format_float st ps = Ok st' ->
    dedup_inv str_lower float_of_str format_float (records ++ ps) st'.
Proof.
  induction ps as [|p ps IH]; intros records st st' HI; cbn [for_products].
  - intros [= <-]. rewrite app_nil_r. exact HI.
  - destruct (visit str_lower float_of_str format_float st p) as [st1|e] eqn:Hv;
      rewrite ?bind_Ok; [|discriminate].
    intros Hrest. replace (records ++ p :: ps) with ((records ++ [p]) ++ ps)
      by (rewrite <- app_assoc; reflexivity).
    eapply IH; [|exact Hrest]. eapply dedup_inv_visit; eauto.
Qed.

(** C1, as the code has it: the rows of the Output Table belong to
    pairwise distinct identifiers, which are exactly the Seen-Identifier
    Set, and the row of an identifier is the normalization of the first
    record, in query-term order and then record order, that the Record
    Normalizer accepts under that identifier.  Two terms that each
    return one accepted record with the same identifier give exactly the
    row of the first term's record. *)
Theorem first_accepted_record_is_kept (a : args) net :
  (forall queries st,
     for_queries str_lower float_of_str format_float a net 0 initial queries = Ok st ->
     exists codes : list str,
       NoDup codes /\ seen st = list_to_set codes /\
       Forall2 (first_accepted str_lower float_of_str format_float
                  (surfaced a net 0 queries))
               codes (rows st)) /\
  (forall q1 q2 p1 p2 code row1 row2,
     fetch_off_search (net 0) q1 (limit a) (lc a) = Ok (VList [p1]) ->
     fetch_off_search (net 1) q2 (limit a) (lc a) = Ok (VList [p2]) ->
     normalize str_lower float_of_str format_float p1 = Ok (Append code row1) ->
     normalize str_lower float_of_str format_float p2 = Ok (Append code row2) ->
     exists st,
       for_queries str_lower float_of_str format_float a net 0 initial [q1; q2] = Ok st /\
       rows st = [row1] /\ seen st = {[code]}).
Proof.
  split.
  - intros queries st Hrun.
    apply for_queries_surfaced in Hrun as (st2 & Hfp & Hsame).
    pose proof (dedup_inv_products _ _ _ _ dedup_inv_initial Hfp) as Hinv.
    apply (dedup_inv_same _ _ _ Hsame) in Hinv.
    destruct Hinv as (codes & Hnd & Hseen & Hrows & _). cbn [app] in Hrows.
    eauto.
  - intros q1 q2 p1 p2 code row1 row2 Hf1 Hf2 Hn1 Hn2.
    destruct (normalize_Append _ _ _ Hn2) as [Hid2 Hne].
    assert (Hone : forall urlopen st q p,
      fetch_off_search urlopen q (limit a) (lc a) = Ok (VList [p]) ->
      query str_lower float_of_str format_float a urlopen st q =
      (st' ← visit str_lower float_of_str format_float st p; mret (sleep st'))).
    { intros urlopen st q p Hf. unfold query. rewrite Hf. cbn [py_iter].
      rewrite bind_Ok. cbn [for_products].
      destruct (visit str_lower float_of_str format_float st p);
        rewrite ?bind_Ok, ?bind_Raise; reflexivity. }
    cbn [for_queries]. rewrite (Hone _ _ _ _ Hf1). unfold visit at 1.
    change (seen initial) with (∅ : gset str).
    fold (normalize str_lower float_of_str format_float p1).
    rewrite Hn1. cbn [mret result_ret]. rewrite !bind_Ok.
    rewrite (Hone _ _ _ _ Hf2). unfold visit. cbn [sleep commit seen].
    rewrite examine_seen, Hid2, bind_Ok.
    rewrite bool_decide_eq_false_2 by assumption.
    rewrite bool_decide_eq_true_2 by set_solver.
    cbn [mret result_ret]. rewrite !bind_Ok.
    eexists. split; [reflexivity|]. cbn [sleep commit rows seen initial app].
    split; [reflexivity | set_solver].
Qed.


(** *** The table *)

Lemma needs_quotes_cons (c : N) (f : str) :
  needs_quotes (c :: f) = false ->
  (c =? 44)%N = false /\ (c =? 34)%N = false /\ (c =? 13)%N = false /\
  needs_quotes f = false.
Proof.
  unfold needs_quotes. cbn [existsb]. rewrite !orb_false_iff.
  intros [[[[H44 H34] H13] _] Hf]. repeat split; assumption.
Qed.

Lemma read_unquoted (f : str) :
  needs_quotes f = false ->
  forall acc record rest,
    read (f ++ rest) InField acc record = read rest InField (rev f ++ acc) record.
Proof.
  induction f as [|c f IH]; intros Hf acc record rest; [reflexivity|].
  apply needs_quotes_cons in Hf as (H44 & H34 & H13 & Hf).
  cbn [app read read_char]. rewrite H44, H13. rewrite IH by exact Hf.
  cbn [rev]. rewrite <- app_assoc. reflexivity.
Qed.

Lemma read_quoted (f : str) :
  forall acc record rest,
    read (double_quotes f ++ rest) InQuoted acc record =
    read rest InQuoted (rev f ++ acc) record.
Proof.
  unfold double_quotes.
  induction f as [|c f IH]; intros acc record rest; [reflexivity|].
  cbn [flat_map rev]. rewrite <- !app_assoc.
  destruct (c =? 34)%N eqn:Hc.
  - apply N.eqb_eq in Hc as ->. cbn [app read read_char N.eqb Pos.eqb].
    rewrite IH. reflexivity.
  - cbn [app read read_char]. rewrite Hc, IH. reflexivity.
Qed.

Lemma read_field_comma (start : reading) (f : str) (record : list str) (rest : str) :
  starts start record ->
  read (csv_field f ++ 44%N :: rest) start [] record =
  read rest FieldStart [] (f :: record).
Proof.
  intros Hstart. unfold csv_field. destruct (needs_quotes f) eqn:Hq.
  - cbn [app]. rewrite <- app_assoc.
    assert (Hopen : read (34%N :: double_quotes f ++ [34%N] ++ 44%N :: rest) start [] record
                    = read (double_quotes f ++ [34%N] ++ 44%N :: rest) InQuoted [] record).
    { destruct Hstart as [->|[-> ->]]; reflexivity. }
    rewrite Hopen, read_quoted. cbn [app read read_char N.eqb Pos.eqb].
    rewrite app_nil_r, rev_involutive. reflexivity.
  - destruct f as [|c f].
    + destruct Hstart as [->|[-> ->]]; reflexivity.
    + apply needs_quotes_cons in Hq as (H44 & H34 & H13 & Hf).
      assert (Hopen : read ((c :: f) ++ 44%N :: rest) start [] record
                      = read (f ++ 44%N :: rest) InField [c] record).
      { destruct Hstart as [->|[-> ->]]; cbn [app read read_char];
          rewrite ?H44, ?H34, ?H13; try reflexivity.
        destruct (c =? 10)%N; reflexivity. }
      rewrite Hopen, read_unquoted by exact Hf.
      cbn [read read_char N.eqb Pos.eqb].
      change (rev f ++ [c]) with (rev (c :: f)). rewrite rev_involutive.
      reflexivity.
Qed.

Lemma read_field_end (start : reading) (f : str) (record : list str) (rest : str) :
  starts start record ->
  (start = RecordStart -> f ≠ []) ->
  read (csv_field f ++ 13%N :: 10%N :: rest) start [] record =
  (rev record ++ [f]) :: read rest RecordStart [] [].
Proof.
  intros Hstart Hne. unfold csv_field. destruct (needs_quotes f) eqn:Hq.
  - cbn [app]. rewrite <- app_assoc.
    assert (Hopen : read (34%N :: double_quotes f ++ [34%N] ++ 13%N :: 10%N :: rest)
                      start [] record
                    = read (double_quotes f ++ [34%N] ++ 13%N :: 10%N :: rest)
                        InQuoted [] record).
    { destruct Hstart as [->|[-> ->]]; reflexivity. }
    rewrite Hopen, read_quoted. cbn [app read read_char N.eqb Pos.eqb andb].
    unfold end_record. rewrite app_nil_r, rev_involutive. reflexivity.
  - destruct f as [|c f].
    + destruct Hstart as [->|[-> ->]]; [reflexivity|].
      destruct (Hne eq_refl eq_refl).
    + apply needs_quotes_cons in Hq as (H44 & H34 & H13 & Hf).
      assert (Hopen : read ((c :: f) ++ 13%N :: 10%N :: rest) start [] record
                      = read (f ++ 13%N :: 10%N :: rest) InField [c] record).
      { destruct Hstart as [->|[-> ->]]; cbn [app read read_char];
          rewrite ?H44, ?H34, ?H13; try reflexivity.
        destruct (c =? 10)%N; reflexivity. }
      rewrite Hopen, read_unquoted by exact Hf.
      cbn [read read_char N.eqb Pos.eqb andb]. unfold end_record.
      change (rev f ++ [c]) with (rev (c :: f)). rewrite rev_involutive.
      reflexivity.
Qed.

Lemma read_record (fields : list str) :
  forall start record rest,
    fields ≠ [] ->
    starts start record ->
    (start = RecordStart -> fields ≠ [[]]) ->
    read (join 44 (map csv_field fields) ++ 13%N :: 10%N :: rest) start [] record =
    (rev record ++ fields) :: read rest RecordStart [] [].
Proof.
  induction fields as [|f fields IH]; intros start record rest Hne Hstart Hone;
    [contradiction|].
  destruct fields as [|g fields].
  - cbn [map join]. apply read_field_end; [exact Hstart|].
    intros Hs ->. apply (Hone Hs). reflexivity.
  - change (join 44 (map csv_field (f :: g :: fields)))
      with (csv_field f ++ 44%N :: join 44 (map csv_field (g :: fields))).
    rewrite <- app_assoc. cbn [app].
    rewrite read_field_comma by exact Hstart.
    rewrite IH; [|discriminate|left; reflexivity|discriminate].
    cbn [rev]. rewrite <- app_assoc. reflexivity.
Qed.

Lemma read_writerow (fields : list str) (rest : str) :
  read (writerow fields ++ rest) RecordStart [] [] =
  fields :: read rest RecordStart [] [].
Proof.
  assert (Hjoin : forall fs : list str,
            fs ≠ [] -> fs ≠ [[]] ->
            read ((join 44 (map csv_field fs) ++ [13; 10]%N) ++ rest) RecordStart [] []
            = fs :: read rest RecordStart [] []).
  { intros fs Hne Hone. rewrite <- (app_assoc _ _ rest). cbn [app].
    rewrite read_record; [reflexivity|exact Hne|right; auto|intros _; exact Hone]. }
  destruct fields as [|[|c f] [|g fields]]; try reflexivity;
    apply Hjoin; discriminate.
Qed.

Lemma read_writerows (rs : list (list str)) :
  read (writerows rs) RecordStart [] [] = rs.
Proof.
  unfold writerows. induction rs as [|r rs IH]; [reflexivity|].
  cbn [map concat]. rewrite read_writerow, IH. reflexivity.
Qed.

(** *** Writing the table *)

Lemma write_encodable (path : str) (text : str) (fs : gmap str bytes) (old : bytes) :
  fs !! path = Some old -> encodable text = true ->
  write path text fs = Ok (<[path := old ++ flat_map utf8_encode_char text]> fs).
Proof.
  intros Hfs Ht. unfold write. rewrite (utf8_encode_encodable _ Ht), bind_Ok, Hfs.
  reflexivity.
Qed.

Lemma write_unencodable (path : str) (text : str) (fs : gmap str bytes) :
  encodable text = false -> write path text fs = Raise UnicodeEncodeError.
Proof.
  intros Ht. unfold write. rewrite (utf8_encode_unencodable _ Ht). reflexivity.
Qed.

Lemma writerows_to_encodable (path : str) (rs : list (list str)) :
  forall (fs : gmap str bytes) (old : bytes),
    fs !! path = Some old ->
    forallb (forallb encodable) rs = true ->
    writerows_to path rs fs =
    (<[path := old ++ flat_map utf8_encode_char (writerows rs)]> fs, Ok tt).
Proof.
  induction rs as [|r rs IH]; intros fs old Hfs; cbn [writerows_to forallb].
  - intros _. unfold writerows. cbn [map concat flat_map].
    rewrite app_nil_r, (insert_id _ _ _ Hfs). reflexivity.
  - intros [Hr Hrs]%andb_true_iff.
    rewrite <- writerow_encodable in Hr.
    rewrite (write_encodable _ _ _ _ Hfs Hr).
    rewrite (IH _ (old ++ flat_map utf8_encode_char (writerow r)))
      by (rewrite ?lookup_insert_eq; auto).
    rewrite insert_insert_eq. unfold writerows. cbn [map concat].
    rewrite flat_map_app, <- (app_assoc old). reflexivity.
Qed.

Lemma writerows_to_unencodable (path : str) (before : list (list str)) :
  forall (r : list str) (after : list (list str)) (fs : gmap str bytes) (old : bytes),
    fs !! path = Some old ->
    forallb (forallb encodable) before = true -> forallb encodable r = false ->
    writerows_to path (before ++ r :: after) fs =
    (<[path := old ++ flat_map utf8_encode_char (writerows before)]> fs,
     Raise UnicodeEncodeError).
Proof.
  induction before as [|b before IH]; intros r after fs old Hfs;
    cbn [app writerows_to forallb].
  - intros _ Hr. rewrite <- writerow_encodable in Hr.
    rewrite (write_unencodable _ _ _ Hr). unfold writerows. cbn [map concat flat_map].
    rewrite app_nil_r, (insert_id _ _ _ Hfs). reflexivity.
  - intros [Hb Hbefore]%andb_true_iff Hr.
    rewrite <- writerow_encodable in Hb.
    rewrite (write_encodable _ _ _ _ Hfs Hb).
    rewrite (IH r after _ (old ++ flat_map utf8_encode_char (writerow b)))
      by (rewrite ?lookup_insert_eq; auto).
    rewrite insert_insert_eq. unfold writerows. cbn [map concat].
    rewrite flat_map_app, <- (app_assoc old). reflexivity.
Qed.

Lemma write_HEADER (path : str) (fs : gmap str bytes) :
  write path (writerow HEADER) (open_w path fs) =
  Ok (<[path := flat_map utf8_encode_char (writerow HEADER)]> fs).
Proof.
  rewrite (write_encodable path _ _ []) by
    (first [apply lookup_insert_eq | exact HEADER_encodable]).
  unfold open_w. rewrite insert_insert_eq. reflexivity.
Qed.

(** The table whose rows can all be encoded. *)
Lemma write_table_encodable (path : str) (rs : list (list str)) (fs : gmap str bytes) :
  forallb (forallb encodable) rs = true ->
  write_table path rs fs =
  (<[path := flat_map utf8_encode_char (writerow HEADER ++ writerows rs)]> fs, Ok tt).
Proof.
  intros Hrs. unfold write_table. rewrite write_HEADER.
  rewrite (writerows_to_encodable path rs _ (flat_map utf8_encode_char (writerow HEADER)))
    by (first [apply lookup_insert_eq | exact Hrs]).
  rewrite insert_insert_eq, flat_map_app. reflexivity.
Qed.

(** The table with a row that cannot be encoded. *)
Lemma write_table_unencodable (path : str) (before : list (list str)) (r : list str)
    (after : list (list str)) (fs : gmap str bytes) :
  forallb (forallb encodable) before = true -> forallb encodable r = false ->
  write_table path (before ++ r :: after) fs =
  (<[path := flat_map utf8_encode_char (writerow HEADER ++ writerows before)]> fs,
   Raise UnicodeEncodeError).
Proof.
  intros Hbefore Hr. unfold write_table. rewrite write_HEADER.
  rewrite (writerows_to_unencodable path before r after _
             (flat_map utf8_encode_char (writerow HEADER)))
    by (first [apply lookup_insert_eq | assumption]).
  rewrite insert_insert_eq, flat_map_app. reflexivity.
Qed.

(** The writer returns only when every row could be encoded. *)
Lemma write_table_returns (path : str) (rs : list (list str))
    (fs fs' : gmap str bytes) :
  write_table path rs fs = (fs', Ok tt) -> forallb (forallb encodable) rs = true.
Proof.
  intros Hw. destruct (forallb (forallb encodable) rs) eqn:Hrs; [reflexivity|].
  apply first_unencodable in Hrs as (before & r & after & -> & Hb & Hr).
  rewrite (write_table_unencodable _ _ _ _ _ Hb Hr) in Hw. discriminate.
Qed.

Lemma read_table_writerows (rs : list (list str)) :
  read_table (writerow HEADER ++ writerows rs) = HEADER :: rs.
Proof. unfold read_table. rewrite read_writerow, read_writerows. reflexivity. Qed.

(** C9: for every accumulated row sequence whose cells hold no
    surrogate code point, whatever the destination held before, after
    the Tabular Writer it holds the UTF-8 encoding of the header row
    followed by the rows in accumulated order, and nothing else changes;
    decoded and read back as a delimited table, the file gives the
    header and then exactly the accumulated rows, whatever commas, quotes
    or line ends their cells contain.  At the first row with a cell that
    cannot be encoded the writer raises [UnicodeEncodeError], and the
    file holds the header and the rows before that one.  The header
    names the eight columns and does not depend on the arguments of the
    run.  A run whose rows can all be encoded ends with the table
    written and the summary line printed; any other run ends with the
    encoding error. *)
Theorem table_is_header_then_rows :
  (forall (path : str) (rs : list (list str)) (fs : gmap str bytes),
     forallb (forallb encodable) rs = true ->
     exists bs : bytes,
       write_table path rs fs = (<[path := bs]> fs, Ok tt) /\
       utf8_encode (writerow HEADER ++ writerows rs) = Ok bs /\
       read_table (utf8_decode bs) = HEADER :: rs) /\
  (forall (path : str) (before : list (list str)) (r : list str)
          (after : list (list str)) (fs : gmap str bytes),
     forallb (forallb encodable) before = true -> forallb encodable r = false ->
     exists bs : bytes,
       write_table path (before ++ r :: after) fs
         = (<[path := bs]> fs, Raise UnicodeEncodeError) /\
       utf8_encode (writerow HEADER ++ writerows before) = Ok bs /\
       read_table (utf8_decode bs) = HEADER :: before) /\
  writerow HEADER =
    u "nameEN,nameTR,brand,calories,protein,carbs,fat,category" ++ [13; 10]%N /\
  (forall queries (a : args) net (fs : gmap str bytes) (st : state),
     for_queries str_lower float_of_str format_float a net 0 initial queries = Ok st ->
     main_on str_lower float_of_str format_float queries a net fs =
     if forallb (forallb encodable) (rows st)
     then Ok {| files :=
                  <[out a := flat_map utf8_encode_char
                               (writerow HEADER ++ writerows (rows st))]> fs;
                console := stdout st ++ [DONE (length (rows st)) (out a)] |}
     else Raise UnicodeEncodeError).
Proof.
  split; [|split; [|split; [vm_compute; reflexivity|]]].
  - intros path rs fs Hrs. eexists. split; [apply write_table_encodable, Hrs|].
    split; [apply utf8_encode_encodable, table_encodable, Hrs|].
    rewrite utf8_decode_encode. apply read_table_writerows.
  - intros path before r after fs Hb Hr. eexists.
    split; [apply write_table_unencodable; assumption|].
    split; [apply utf8_encode_encodable, table_encodable, Hb|].
    rewrite utf8_decode_encode. apply read_table_writerows.
  - intros queries a net fs st Hrun. unfold main_on. rewrite Hrun, bind_Ok.
    destruct (forallb (forallb encodable) (rows st)) eqn:Hrows.
    + rewrite (write_table_encodable _ _ _ Hrows). reflexivity.
    + apply first_unencodable in Hrows as (before & r & after & -> & Hb & Hr).
      rewrite (write_table_unencodable _ _ _ _ _ Hb Hr). reflexivity.
Qed.

End Properties.

(** ** Closed instances *)

Lemma map_category_first_match_witness :
  map_category ascii_lower (VList [VStr (u "en:chicken-breast")]) = Ok (u "meat").
Proof.
  apply (map_category_first_match ascii_lower).
  intros s _. reflexivity.
Defined.

Lemma normalize_never_raises_witness :
  exists v,
    examine ascii_lower float_of_digits repr_integral ∅ full_X1 = Ok v /\
    match v with
    | Skip _ => True
    | Append code row => identifier full_X1 = Ok code /\ code ≠ [] /\ length row = 8
    end.
Proof.
  apply (normalize_never_raises ascii_lower float_of_digits repr_integral full_X1).
  vm_compute. reflexivity.
Defined.

Lemma macro_gate_witness :
  exists name,
    display_name full_X1 = Ok name /\
    (rejected ascii_lower float_of_digits repr_integral ∅ full_X1 <->
     ((100 <=? 0)%float = true /\ (0 <=? 0)%float = true /\
      (0 <=? 0)%float = true /\ (0 <=? 0)%float = true) \/ name = []).
Proof.
  refine (proj1 (macro_gate ascii_lower float_of_digits repr_integral
                   ∅ full_X1 (u "X1") 100 0 0 0 _ _ _ _) _).
  - vm_compute. reflexivity.
  - vm_compute. discriminate.
  - apply not_elem_of_empty.
  - vm_compute. reflexivity.
  - vm_compute. reflexivity.
Defined.

(** The record with identifier "P7", energy 0 and protein 0.1 belongs to
    the raw-record data model and its protein is above zero, yet the
    Record Normalizer rejects it, at the name gate: being rejected is not
    equivalent to the four values being all at most zero. *)
Lemma positive_macro_is_rejected :
  raw_record protein_only = true /\
  identifier protein_only = Ok (u "P7") /\ u "P7" ≠ [] /\
  macros float_of_digits protein_only = Ok (0, 0.1, 0, 0)%float /\
  normalize ascii_lower float_of_digits repr_integral protein_only
    = Ok (Skip NoName) /\
  ~ (rejected ascii_lower float_of_digits repr_integral ∅ protein_only <->
     (0 <=? 0)%float = true /\ (0.1 <=? 0)%float = true /\
     (0 <=? 0)%float = true /\ (0 <=? 0)%float = true).
Proof.
  split; [vm_compute; reflexivity|].
  split; [vm_compute; reflexivity|].
  split; [vm_compute; discriminate|].
  split; [vm_compute; reflexivity|].
  split; [vm_compute; reflexivity|].
  intros [Hrej _]. destruct Hrej as (_ & Hprot & _).
  - exists NoName. vm_compute. reflexivity.
  - vm_compute in Hprot. discriminate.
Qed.

Lemma rows_count_is_seen_size_witness :
  length (rows after_blank_then_full) = size (seen after_blank_then_full).
Proof.
  apply (proj1 (rows_count_is_seen_size ascii_lower float_of_digits repr_integral)
           example_args blank_then_full [u "a"; u "b"]).
  vm_compute. reflexivity.
Defined.

Lemma rows_have_names_witness :
  Forall (fun row : list str =>
            exists name rest,
              row = name :: name :: rest /\ name ≠ [] /\ length rest = 6)
         (rows after_blank_then_full).
Proof.
  apply (proj1 (rows_have_names ascii_lower float_of_digits repr_integral)
           example_args blank_then_full [u "a"; u "b"]).
  vm_compute. reflexivity.
Defined.

Lemma rejection_leaves_no_trace_witness :
  for_products ascii_lower float_of_digits repr_integral initial [blank_X1; full_X1] =
  Ok {| seen := {[u "X1"]} ∪ ∅; rows := [] ++ [row_full_X1]; stdout := []; naps := 0 |}.
Proof.
  refine (proj2 (proj2 (proj2
    (rejection_leaves_no_trace ascii_lower float_of_digits repr_integral
       initial blank_X1 AllBlank _)) full_X1 (u "X1") row_full_X1 _ _ _)).
  - vm_compute. reflexivity.
  - discriminate.
  - vm_compute. reflexivity.
  - vm_compute. reflexivity.
Defined.

Lemma failed_query_is_skipped_witness :
  WARN (u "a") RuntimeError ∈ stdout after_down_then_full.
Proof.
  refine (proj1 (proj2 (proj2
    (failed_query_is_skipped ascii_lower float_of_digits repr_integral
       example_args down_then_full [] (u "a") [u "b"] RuntimeError _)))
    after_down_then_full _).
  - vm_compute. reflexivity.
  - vm_compute. reflexivity.
Defined.

Lemma first_accepted_record_is_kept_witness :
  exists codes : list str,
    NoDup codes /\ seen after_blank_then_full = list_to_set codes /\
    Forall2 (first_accepted ascii_lower float_of_digits repr_integral
               (surfaced example_args blank_then_full 0 [u "a"; u "b"]))
            codes (rows after_blank_then_full).
Proof.
  apply (proj1 (first_accepted_record_is_kept ascii_lower float_of_digits
                  repr_integral example_args blank_then_full)).
  vm_compute. reflexivity.
Defined.

(** The first query term surfaces a record with identifier "X1" and
    brand "A" that has no nutrient, the second a record with the same
    identifier and brand "B" that has one: the run keeps one row, with
    brand "B", and it is not the normalization of the first record seen
    under its identifier. *)
Lemma first_seen_record_is_not_kept :
  for_queries ascii_lower float_of_digits repr_integral
    example_args blank_then_full 0 initial [u "a"; u "b"]
  = Ok after_blank_then_full /\
  surfaced example_args blank_then_full 0 [u "a"; u "b"] = [blank_X1; full_X1] /\
  rows after_blank_then_full = [row_full_X1] /\
  row_full_X1 !! 2 = Some (u "B") /\
  ~ Forall (fun row =>
              exists code,
                first_seen ascii_lower float_of_digits repr_integral
                  (surfaced example_args blank_then_full 0 [u "a"; u "b"])
                  code row)
           (rows after_blank_then_full).
Proof.
  split; [vm_compute; reflexivity|].
  split; [vm_compute; reflexivity|].
  split; [reflexivity|]. split; [vm_compute; reflexivity|].
  intros H. apply Forall_inv in H as (code & pre & p & post & Heq & Hid & Hpre & Hnorm).
  change (surfaced example_args blank_then_full 0 [u "a"; u "b"])
    with [blank_X1; full_X1] in Heq.
  destruct pre as [|x [|y pre]]; cbn [app] in Heq.
  - injection Heq as <- _. vm_compute in Hnorm. discriminate.
  - injection Heq as <- <- _. vm_compute in Hid. injection Hid as <-.
    apply (Hpre blank_X1); [apply list_elem_of_here|]. vm_compute. reflexivity.
  - injection Heq as _ _ Heq. destruct pre; discriminate.
Qed.

Lemma table_is_header_then_rows_witness :
  exists bs : bytes,
    write_table (u "foods.csv") [row_full_X1] {[ u "foods.csv" := [111; 108; 100]%N ]}
      = (<[ u "foods.csv" := bs ]> {[ u "foods.csv" := [111; 108; 100]%N ]}, Ok tt) /\
    utf8_encode (writerow HEADER ++ writerows [row_full_X1]) = Ok bs /\
    read_table (utf8_decode bs) = HEADER :: [row_full_X1].
Proof.
  apply (proj1 (table_is_header_then_rows ascii_lower float_of_digits repr_integral)).
  vm_compute. reflexivity.
Defined.

(** A record of the raw-record data model whose name is a lone
    surrogate is accepted, and its row cannot be encoded: the writer
    raises, the destination holds the header row only, not the header
    followed by the accumulated row, and the run ends with the error. *)
Lemma unencodable_row_is_not_written :
  raw_record lone_surrogate = true /\
  for_queries ascii_lower float_of_digits repr_integral example_args
    (fun _ _ => found [lone_surrogate]) 0 initial [u "a"]
  = Ok {| seen := {[u "S1"]}; rows := [row_lone_surrogate]; stdout := []; naps := 1 |} /\
  write_table (out example_args) [row_lone_surrogate] ∅
  = ({[ out example_args := flat_map utf8_encode_char (writerow HEADER) ]},
     Raise UnicodeEncodeError) /\
  read_table (utf8_decode (flat_map utf8_encode_char (writerow HEADER))) = [HEADER] /\
  main_on ascii_lower float_of_digits repr_integral [u "a"] example_args
    (fun _ _ => found [lone_surrogate]) ∅
  = Raise UnicodeEncodeError /\
  ~ (exists bs : bytes,
       (write_table (out example_args) [row_lone_surrogate] ∅).1 !! out example_args
         = Some bs /\
       read_table (utf8_decode bs) = HEADER :: [row_lone_surrogate]).
Proof.
  assert (Hw : write_table (out example_args) [row_lone_surrogate] ∅
               = ({[ out example_args := flat_map utf8_encode_char (writerow HEADER) ]},
                  Raise UnicodeEncodeError))
    by (vm_compute; reflexivity).
  split; [vm_compute; reflexivity|].
  split; [vm_compute; reflexivity|].
  split; [exact Hw|].
  split; [vm_compute; reflexivity|].
  split; [vm_compute; reflexivity|].
  intros (bs & Hbs & Hread). rewrite Hw in Hbs. cbn [fst] in Hbs.
  rewrite lookup_singleton_eq in Hbs. injection Hbs as <-.
  vm_compute in Hread. discriminate.
Qed.

(** ** Further properties of the exporter *)

(** *** Trimming and splitting *)

Lemma lstrip_split (s : str) :
  exists w, s = w ++ lstrip s /\ forallb is_space w = true.
Proof.
  induction s as [|c s (w & Hs & Hw)]; [exists []; auto|].
  cbn [lstrip]. destruct (is_space c) eqn:Hc.
  - exists (c :: w). cbn [app forallb]. rewrite Hc, Hw, <- Hs. auto.
  - exists []. auto.
Qed.

Lemma lstrip_head (s : str) :
  match lstrip s with [] => True | c :: _ => is_space c = false end.
Proof.
  induction s as [|c s IH]; [exact I|].
  cbn [lstrip]. destruct (is_space c) eqn:Hc; [exact IH | exact Hc].
Qed.

Lemma lstrip_fixed (s : str) :
  match s with [] => True | c :: _ => is_space c = false end -> lstrip s = s.
Proof. destruct s as [|c s]; [reflexivity|]. cbn [lstrip]. intros ->. reflexivity. Qed.

Lemma lstrip_blank (s : str) : lstrip s = [] <-> forallb is_space s = true.
Proof.
  induction s as [|c s IH]; [tauto|].
  cbn [lstrip forallb]. destruct (is_space c); cbn [andb]; [exact IH|].
  split; discriminate.
Qed.

(** A stripped string neither starts nor ends with whitespace. *)
Lemma strip_trimmed (s : str) :
  lstrip (strip s) = strip s /\ lstrip (rev (strip s)) = rev (strip s).
Proof.
  unfold strip, rstrip. set (t := lstrip s).
  destruct (lstrip_split (rev t)) as (w & Hw & _).
  set (v := lstrip (rev t)) in *. split.
  - apply lstrip_fixed. destruct (rev v) as [|c r] eqn:Hv; [exact I|].
    assert (Ht : t = c :: r ++ rev w).
    { rewrite <- (rev_involutive t), Hw, rev_app_distr, Hv. reflexivity. }
    pose proof (lstrip_head s) as Hh. fold t in Hh. rewrite Ht in Hh. exact Hh.
  - rewrite rev_involutive. apply lstrip_fixed. apply lstrip_head.
Qed.

Lemma strip_idempotent (s : str) : strip (strip s) = strip s.
Proof.
  destruct (strip_trimmed s) as [Hl Hr].
  unfold strip at 1, rstrip. rewrite Hl, Hr. apply rev_involutive.
Qed.

(** Stripping removes whitespace at both ends and nothing else. *)
Lemma strip_infix (s : str) :
  exists l r,
    s = l ++ strip s ++ r /\ forallb is_space l = true /\ forallb is_space r = true.
Proof.
  destruct (lstrip_split s) as (l & Hs & Hl).
  destruct (lstrip_split (rev (lstrip s))) as (w & Hw & Hwsp).
  exists l, (rev w). unfold strip, rstrip. split; [|split; [exact Hl|]].
  - rewrite <- rev_app_distr, <- Hw, rev_involutive. exact Hs.
  - rewrite forallb_forall in *. intros c Hc. apply Hwsp, in_rev, Hc.
Qed.

Lemma strip_blank (s : str) : strip s = [] <-> forallb is_space s = true.
Proof.
  split.
  - intros Hs. destruct (strip_infix s) as (l & r & Heq & Hl & Hr).
    rewrite Hs in Heq. cbn [app] in Heq.
    rewrite Heq, forallb_app, Hl, Hr. reflexivity.
  - intros Hs. unfold strip, rstrip.
    rewrite (proj2 (lstrip_blank s) Hs). reflexivity.
Qed.

Lemma str_split_no_sep (sep : N) (s : str) :
  Forall (fun part : str => sep ∉ part) (str_split sep s).
Proof.
  induction s as [|c s IH]; cbn [str_split].
  - repeat constructor. intros H. inversion H.
  - destruct (c =? sep)%N eqn:Hc.
    + constructor; [|exact IH]. intros H. inversion H.
    + destruct (str_split sep s) as [|h t].
      * repeat constructor. intros [->|H]%elem_of_cons; [|inversion H].
        rewrite N.eqb_refl in Hc. discriminate.
      * inversion IH as [|? ? Hh Ht]; subst. constructor; [|exact Ht].
        intros [->|H]%elem_of_cons; [|contradiction].
        rewrite N.eqb_refl in Hc. discriminate.
Qed.

Lemma str_split_cons (sep : N) (s : str) :
  exists h t, str_split sep s = h :: t.
Proof.
  destruct s as [|c s]; cbn [str_split]; [eauto|].
  destruct (c =? sep)%N; [eauto|]. destruct (str_split sep s); eauto.
Qed.

Lemma str_split_join (sep : N) (s : str) : join sep (str_split sep s) = s.
Proof.
  induction s as [|c s IH]; [reflexivity|]. cbn [str_split].
  destruct (str_split_cons sep s) as (h & t & Hs). rewrite Hs in *.
  destruct (c =? sep)%N eqn:Hc.
  - apply N.eqb_eq in Hc as ->.
    change (join sep ([] :: h :: t)) with ([] ++ sep :: join sep (h :: t)).
    rewrite IH. reflexivity.
  - destruct t as [|g t]; cbn [join] in *; rewrite <- IH; reflexivity.
Qed.

(** *** The primary brand *)

Lemma first_part_spec (parts : list str) :
  let chosen :=
    match filter (fun p : str => p ≠ []) (map strip parts) with
    | p0 :: _ => p0
    | [] => []
    end in
  (chosen = [] /\ Forall (fun p => forallb is_space p = true) parts) \/
  (exists before part after,
      parts = before ++ part :: after /\
      Forall (fun p => forallb is_space p = true) before /\
      chosen = strip part /\ strip part ≠ []).
Proof.
  induction parts as [|p parts IH]; cbn [map].
  - left. split; [reflexivity | constructor].
  - rewrite filter_cons. destruct (decide (strip p ≠ [])) as [Hp|Hp].
    + right. exists [], p, parts. repeat split; auto.
    + assert (Hb : strip p = []) by (destruct (strip p); [reflexivity | destruct Hp; discriminate]).
      apply strip_blank in Hb.
      destruct IH as [[Hc Hall]|(before & part & after & -> & Hbef & Hc & Hne)].
      * left. split; [exact Hc | constructor; assumption].
      * right. exists (p :: before), part, after. repeat split; auto.
Qed.

Lemma first_brand_parts (brands_field : str) :
  first_brand brands_field =
  match filter (fun p : str => p ≠ []) (map strip (str_split 44 brands_field)) with
  | p0 :: _ => p0
  | [] => []
  end.
Proof.
  unfold first_brand. case_bool_decide as Hs; [|reflexivity].
  rewrite Hs. reflexivity.
Qed.

Lemma first_brand_clean (brands_field : str) :
  (44%N ∉ first_brand brands_field) /\
  strip (first_brand brands_field) = first_brand brands_field.
Proof.
  rewrite first_brand_parts.
  pose proof (str_split_no_sep 44 brands_field) as Hsep.
  destruct (first_part_spec (str_split 44 brands_field))
    as [[Hc Hall]|(before & part & after & Hparts & Hbef & Hc & Hne)];
    cbv zeta in Hc; rewrite Hc.
  - split; [intros H; inversion H | reflexivity].
  - split; [|apply strip_idempotent].
    intros Hin. rewrite Hparts in Hsep.
    apply Forall_app in Hsep as [_ Hsep]. apply Forall_cons in Hsep as [Hpart _].
    apply Hpart. destruct (strip_infix part) as (l & r & Heq & _ & _).
    rewrite Heq. apply elem_of_app. right. apply elem_of_app. left. exact Hin.
Qed.

(** X1: the primary brand is the first comma-separated part of the
    brand field that is not blank, trimmed; it is empty exactly when
    every part is blank; it never contains a comma and has no
    whitespace at either end. *)
Theorem first_brand_first_token (brands_field : str) :
  join 44 (str_split 44 brands_field) = brands_field /\
  (44%N ∉ first_brand brands_field) /\
  strip (first_brand brands_field) = first_brand brands_field /\
  (first_brand brands_field = [] <->
   Forall (fun part => forallb is_space part = true) (str_split 44 brands_field)) /\
  (first_brand brands_field ≠ [] ->
   exists before part after,
     str_split 44 brands_field = before ++ part :: after /\
     Forall (fun p => forallb is_space p = true) before /\
     first_brand brands_field = strip part).
Proof.
  split; [apply str_split_join|].
  rewrite first_brand_parts.
  pose proof (str_split_no_sep 44 brands_field) as Hsep.
  destruct (first_part_spec (str_split 44 brands_field))
    as [[Hc Hall]|(before & part & after & Hparts & Hbef & Hc & Hne)];
    cbv zeta in Hc; rewrite Hc.
  - split; [intros H; inversion H|]. split; [reflexivity|].
    split; [tauto|]. intros H. destruct (H eq_refl).
  - split; [|split; [apply strip_idempotent|split]].
    + intros Hin. rewrite Hparts in Hsep.
      apply Forall_app in Hsep as [_ Hsep]. apply Forall_cons in Hsep as [Hpart _].
      apply Hpart. destruct (strip_infix part) as (l & r & Heq & _ & _).
      rewrite Heq. apply elem_of_app. right. apply elem_of_app. left. exact Hin.
    + split; [intros H; contradiction|].
      intros Hall. rewrite Hparts in Hall.
      apply Forall_app in Hall as [_ Hall]. apply Forall_cons in Hall as [Hpart _].
      apply strip_blank in Hpart. contradiction.
    + intros _. exists before, part, after. auto.
Qed.

Section Further.

Variable str_lower : str -> str.
Variable float_of_str : str -> option float.
Variable format_float : float -> str.

(** *** The sanitizer, again *)

(** X2: the Numeric Sanitizer leaves every finite float as it is, so
    sanitizing twice is the same as sanitizing once. *)
Theorem to_float_fixes_finite :
  (forall f : float, finite f = true -> to_float float_of_str (VFloat f) = Ok f) /\
  (forall (value : pyval) (f : float),
     to_float float_of_str value = Ok f -> to_float float_of_str (VFloat f) = Ok f).
Proof.
  assert (Hfix : forall f, finite f = true -> to_float float_of_str (VFloat f) = Ok f).
  { intros f Hf. rewrite to_float_spec. cbn [py_float]. unfold finite in Hf.
    destruct (isnan f), (isinf f); try discriminate. reflexivity. }
  split; [exact Hfix|].
  intros value f Hv. apply Hfix.
  destruct (to_float_returns float_of_str value) as (g & Hg & Hfin). congruence.
Qed.

(** *** The classifier on values of any shape *)

Lemma lower_all_outcome (items : list pyval) :
  lower_all str_lower items =
  if forallb is_str items
  then Ok (map (fun v => match v with VStr t => str_lower t | _ => [] end) items)
  else Raise AttributeError.
Proof.
  induction items as [|v items IH]; [reflexivity|].
  cbn [lower_all forallb map].
  destruct v; cbn [is_str andb]; try reflexivity.
  rewrite IH. destruct (forallb is_str items); reflexivity.
Qed.

Lemma map_category_items (v : pyval) (items : list pyval) :
  truthy v = true -> py_iter v = Ok items -> forallb is_str items = true ->
  exists c, map_category str_lower v = Ok c /\ c ∈ CATEGORIES.
Proof.
  intros Ht Hi Hs. unfold map_category. rewrite Ht, Hi. cbn [negb].
  rewrite bind_Ok, lower_all_outcome, Hs, bind_Ok.
  eexists. split; [reflexivity | apply scan_tags_closed].
Qed.

Lemma other_closed : u "other" ∈ CATEGORIES.
Proof. apply (bool_decide_unpack _). vm_compute. exact I. Qed.

Lemma map_category_closed (v : pyval) (c : str) :
  map_category str_lower v = Ok c -> c ∈ CATEGORIES.
Proof.
  unfold map_category. destruct (negb (truthy v)).
  - intros [= <-]. apply other_closed.
  - destruct (py_iter v) as [items|e]; rewrite ?bind_Ok, ?bind_Raise; [|discriminate].
    destruct (lower_all str_lower items) as [tags|e];
      rewrite ?bind_Ok, ?bind_Raise; [|discriminate].
    intros [= <-]. apply scan_tags_closed.
Qed.

(** X3: what the Category Classifier does with a value of any shape.
    Nothing, zero, false, the empty string, the empty list and the empty
    object give "other"; a non-zero number and [True] raise [TypeError];
    a list with an element that is not a string raises [AttributeError]
    (every element is lowered before the scan starts, so tags that would
    match do not help); a list of strings, a string (its characters are
    the tags) and an object (its keys are the tags) give a label of the
    closed set. *)
Theorem map_category_outcomes (v : pyval) :
  match v with
  | VNone | VStr [] | VList [] | VDict [] =>
    map_category str_lower v = Ok (u "other")
  | VBool b =>
    map_category str_lower v = if b then Raise TypeError else Ok (u "other")
  | VInt z =>
    map_category str_lower v = if (z =? 0)%Z then Ok (u "other") else Raise TypeError
  | VFloat f =>
    map_category str_lower v = if (f =? 0)%float then Ok (u "other") else Raise TypeError
  | VStr _ | VDict _ =>
    exists c, map_category str_lower v = Ok c /\ c ∈ CATEGORIES
  | VList l =>
    if forallb is_str l
    then exists c, map_category str_lower v = Ok c /\ c ∈ CATEGORIES
    else map_category str_lower v = Raise AttributeError
  end.
Proof.
  destruct v as [|b|z|f|[|c s]|[|x l]|[|kv d]]; try reflexivity.
  - destruct b; reflexivity.
  - unfold map_category. cbn [truthy]. destruct (z =? 0)%Z; reflexivity.
  - unfold map_category. cbn [truthy]. destruct (f =? 0)%float; reflexivity.
  - apply (map_category_items _ (map (fun c => VStr [c]) (c :: s)));
      [reflexivity | reflexivity |].
    generalize (c :: s). intros t. induction t as [|a t IH]; [reflexivity | exact IH].
  - destruct (forallb is_str (x :: l)) eqn:Hs.
    + apply (map_category_items _ (x :: l)); [reflexivity | reflexivity | exact Hs].
    + unfold map_category. cbn [truthy negb py_iter].
      rewrite bind_Ok, lower_all_outcome, Hs. reflexivity.
  - apply (map_category_items _ (map (fun kv => VStr (fst kv)) (kv :: d)));
      [reflexivity | reflexivity |].
    generalize (kv :: d). intros t. induction t as [|a t IH]; [reflexivity | exact IH].
Qed.

(** X4: in the keyword table no keyword is written twice and none is
    hidden behind an earlier one: a tag that is a keyword gets that
    keyword's label; and every label of the closed set except "other"
    is the label of some keyword. *)
Theorem CATEGORY_MAP_is_live :
  NoDup (map fst CATEGORY_MAP) /\
  Forall (fun kv : str * str => scan_keys CATEGORY_MAP (fst kv) = Some (snd kv))
         CATEGORY_MAP /\
  Forall (fun c : str => c = u "other" \/ c ∈ map snd CATEGORY_MAP) CATEGORIES.
Proof.
  split; [|split]; apply (bool_decide_unpack _); vm_compute; exact I.
Qed.

(** *** The request *)

(** X5: the search request succeeds exactly when the response has a
    status from 200 to 299 and its body decodes to a JSON object; the
    result is the value under "products", or the empty list when the
    object has no such key. *)
Theorem fetch_off_search_succeeds_iff (urlopen : request -> http_reply)
    (query : str) (page_size : Z) (lc : str) (v : pyval) :
  fetch_off_search urlopen query page_size lc = Ok v <->
  exists (status : Z) (d : list (str * pyval)),
    urlopen {| search_terms := query; page_size := page_size; req_lc := lc |}
      = Response status (Ok (VDict d)) /\
    (200 <= status < 300)%Z /\
    v = default (VList []) (assoc (u "products") d).
Proof.
  unfold fetch_off_search.
  destruct (urlopen _) as [e|status body].
  - split; [discriminate | intros (s & d & [=] & _)].
  - destruct ((status <? 200) || (status >=? 300))%Z eqn:Hs.
    + split; [discriminate|]. intros (s & d & [= -> _] & Hr & _).
      apply orb_true_iff in Hs as [Hs|Hs]; lia.
    + apply orb_false_iff in Hs as [H1 H2].
      destruct body as [data|e]; rewrite ?bind_Ok, ?bind_Raise.
      * destruct data; cbn [get_default];
          try (split; [discriminate | intros (? & ? & [=] & _)]).
        split.
        -- intros [= <-]. exists status, d. repeat split; lia.
        -- intros (? & ? & [= -> ->] & _ & ->). reflexivity.
      * split; [discriminate | intros (s & d & [=] & _)].
Qed.

(** *** Acceptance *)

(** X6: a record of the raw-record data model is accepted under an
    identifier exactly when that is its trimmed identifier, not empty
    and not accepted before, its sanitized macros are not all at most
    zero, and its trimmed name is not empty. *)
Theorem accepted_iff (seen : gset str) (p : pyval) (code : str) :
  raw_record p = true ->
  ((exists row,
       examine str_lower float_of_str format_float seen p = Ok (Append code row)) <->
   identifier p = Ok code /\ code ≠ [] /\ (code ∉ seen) /\
   (exists m, macros float_of_str p = Ok m /\ all_blank m = false) /\
   (exists name, display_name p = Ok name /\ name ≠ [])).
Proof.
  intros Hraw. split.
  - intros [row Hrow].
    apply examine_Append in Hrow as (Hid & Hne & Hs & m & name & Hm & Hb & Hn & Hnn & _).
    eauto 10.
  - intros (Hid & Hne & Hs & (m & Hm & Hb) & (name & Hn & Hnn)).
    destruct (examine_returns str_lower float_of_str format_float p seen Hraw)
      as (v & Hv).
    rewrite examine_gates, Hid, bind_Ok in Hv.
    rewrite !bool_decide_eq_false_2 in Hv by assumption.
    rewrite Hm, bind_Ok, Hb, Hn, bind_Ok in Hv.
    rewrite bool_decide_eq_false_2 in Hv by assumption.
    rewrite examine_gates, Hid, bind_Ok.
    rewrite !bool_decide_eq_false_2 by assumption.
    rewrite Hm, bind_Ok, Hb, Hn, bind_Ok.
    rewrite bool_decide_eq_false_2 by assumption.
    destruct (row_of str_lower format_float p name m) as [row|e];
      [|discriminate]. exists row. reflexivity.
Qed.

(** *** The table only grows *)

(** X7: during a run nothing is ever taken back: the Seen-Identifier
    Set only gains identifiers, rows and printed lines are only added at
    the end, and the number of pauses does not decrease. *)
Theorem table_only_grows (a : args) net (queries : list str) (idx : nat)
    (st st' : state) :
  for_queries str_lower float_of_str format_float a net idx st queries = Ok st' ->
  seen st ⊆ seen st' /\ rows st `prefix_of` rows st' /\
  stdout st `prefix_of` stdout st' /\ naps st <= naps st'.
Proof.
  apply (for_queries_invariant str_lower float_of_str format_float
           (fun s => seen st ⊆ seen s /\ rows st `prefix_of` rows s /\
                     stdout st `prefix_of` stdout s /\ naps st <= naps s)).
  - intros s l (H1 & H2 & H3 & H4). cbn [print seen rows stdout naps].
    repeat split; auto. etrans; [exact H3 | apply prefix_app_r; reflexivity].
  - intros s (H1 & H2 & H3 & H4). cbn [sleep seen rows stdout naps]. auto.
  - intros s p s' (H1 & H2 & H3 & H4) Hv.
    apply visit_cases in Hv as [(why & _ & ->)|(code & row & _ & _ & _ & ->)];
      [auto|].
    cbn [commit seen rows stdout naps]. repeat split; auto.
    + set_solver.
    + etrans; [exact H2 | apply prefix_app_r; reflexivity].
  - repeat split; reflexivity.
Qed.

(** *** Visiting again *)

Lemma settled_mono (S S' : gset str) (p : pyval) (why : skip) :
  examine str_lower float_of_str format_float S p = Ok (Skip why) ->
  S ⊆ S' ->
  exists why', examine str_lower float_of_str format_float S' p = Ok (Skip why').
Proof.
  rewrite !(examine_seen _ _ _ _ p).
  destruct (identifier p) as [c|e]; [rewrite !bind_Ok | discriminate].
  case_bool_decide; [eauto|].
  intros HS Hsub. destruct (decide (c ∈ S')) as [Hin|Hout].
  - rewrite bool_decide_eq_true_2 by assumption. eauto.
  - rewrite bool_decide_eq_false_2 by assumption.
    rewrite bool_decide_eq_false_2 in HS by set_solver. eauto.
Qed.

Lemma settled_after_visit (st : state) (p : pyval) (st' : state) :
  visit str_lower float_of_str format_float st p = Ok st' ->
  exists why, examine str_lower float_of_str format_float (seen st') p = Ok (Skip why).
Proof.
  intros Hv.
  apply visit_cases in Hv as [(why & Hs & ->)|(code & row & Ha & _ & _ & ->)];
    [eauto|].
  apply examine_Append in Ha as (Hid & Hne & _).
  rewrite examine_seen, Hid, bind_Ok. cbn [commit seen].
  rewrite bool_decide_eq_false_2 by assumption.
  rewrite bool_decide_eq_true_2 by set_solver. eauto.
Qed.

Lemma for_products_seen_grows (ps : list pyval) :
  forall st st',
    for_products str_lower float_of_str format_float st ps = Ok st' ->
    seen st ⊆ seen st'.
Proof.
  induction ps as [|p ps IH]; intros st st'; cbn [for_products].
  - intros [= <-]. reflexivity.
  - destruct (visit str_lower float_of_str format_float st p) as [st1|e] eqn:Hv;
      rewrite ?bind_Ok; [|discriminate].
    intros Hrest. apply IH in Hrest.
    apply visit_cases in Hv as [(why & _ & ->)|(code & row & _ & _ & _ & ->)];
      [exact Hrest|].
    cbn [commit seen] in Hrest. set_solver.
Qed.

Lemma for_products_settled (ps : list pyval) :
  forall st st',
    for_products str_lower float_of_str format_float st ps = Ok st' ->
    Forall (fun p => exists why,
              examine str_lower float_of_str format_float (seen st') p = Ok (Skip why))
           ps.
Proof.
  induction ps as [|p ps IH]; intros st st'; cbn [for_products]; [constructor|].
  destruct (visit str_lower float_of_str format_float st p) as [st1|e] eqn:Hv;
    rewrite ?bind_Ok; [|discriminate].
  intros Hrest. constructor; [|eapply IH; exact Hrest].
  destruct (settled_after_visit _ _ _ Hv) as [why Hs].
  eapply settled_mono; [exact Hs|]. eapply for_products_seen_grows, Hrest.
Qed.

(** X8: deduplication is idempotent.  Once a list of records has been
    visited, visiting any of them again, then or later in the run,
    changes nothing: each is skipped, accepted or not the first time. *)
Theorem revisiting_changes_nothing (ps : list pyval) (st st1 : state) :
  for_products str_lower float_of_str format_float st ps = Ok st1 ->
  forall (again : list pyval) (later : state),
    Forall (fun p => p ∈ ps) again ->
    seen st1 ⊆ seen later ->
    for_products str_lower float_of_str format_float later again = Ok later.
Proof.
  intros Hrun again later Hin Hsub.
  pose proof (for_products_settled _ _ _ Hrun) as Hset.
  rewrite Forall_forall in Hset.
  induction again as [|p again IH]; [reflexivity|].
  apply Forall_cons in Hin as [Hp Hin]. cbn [for_products].
  destruct (Hset p Hp) as [why Hs].
  destruct (settled_mono _ _ _ _ Hs Hsub) as [why' Hs'].
  unfold visit. rewrite Hs', bind_Ok. cbn [commit mret result_ret].
  rewrite bind_Ok. apply IH, Hin.
Qed.

(** *** The table as a function of the surfaced records *)

Lemma for_products_keep_first (ps : list pyval) :
  forall st st',
    for_products str_lower float_of_str format_float st ps = Ok st' ->
    let kept :=
      keep_first (seen st)
        (omap (accepted str_lower float_of_str format_float) ps) in
    rows st' = rows st ++ kept.*2 /\
    seen st' = seen st ∪ list_to_set kept.*1.
Proof.
  assert (Hcons : forall (f : pyval -> option (str * list str)) p ps,
            omap f (p :: ps) =
            match f p with Some y => y :: omap f ps | None => omap f ps end)
    by reflexivity.
  induction ps as [|p ps IH]; intros st st'; cbn [for_products].
  - intros [= <-]. cbn. rewrite app_nil_r. split; [reflexivity | set_solver].
  - destruct (visit str_lower float_of_str format_float st p) as [st1|e] eqn:Hv;
      rewrite ?bind_Ok; [|discriminate].
    intros Hrest. destruct (IH _ _ Hrest) as [Hrows Hseen]. cbv zeta.
    apply visit_cases in Hv as [(why & Hs & ->)|(code & row & Ha & Hn & Hfresh & ->)].
    + assert (Hsame :
        keep_first (seen st)
          (omap (accepted str_lower float_of_str format_float) (p :: ps)) =
        keep_first (seen st)
          (omap (accepted str_lower float_of_str format_float) ps)).
      { rewrite Hcons. unfold accepted at 1.
        destruct (normalize str_lower float_of_str format_float p)
          as [[w|c r]|e] eqn:Hn; try reflexivity.
        cbn [keep_first]. destruct (decide (c ∈ seen st)) as [|Hout]; [reflexivity|].
        destruct (normalize_Append _ _ _ _ _ _ Hn) as [Hid Hne].
        rewrite examine_seen, Hid, bind_Ok in Hs.
        rewrite !bool_decide_eq_false_2 in Hs by assumption. congruence. }
      rewrite Hsame. auto.
    + assert (Hacc : accepted str_lower float_of_str format_float p = Some (code, row))
        by (unfold accepted; rewrite Hn; reflexivity).
      rewrite Hcons, Hacc. cbn [keep_first].
      rewrite decide_False by assumption.
      cbn [commit seen rows] in Hrows, Hseen.
      set (K := keep_first ({[code]} ∪ seen st) _) in *. clearbody K.
      rewrite !fmap_cons. cbn [fst snd]. rewrite list_to_set_cons. split.
      * rewrite Hrows, <- app_assoc. reflexivity.
      * rewrite Hseen. generalize (list_to_set K.*1 : gset str) (seen st).
        clear. intros X Y. set_solver.
Qed.

(** X9: the table is a function of the records that the run surfaces:
    its rows are the normalizations of the accepted records, in the order
    in which the records are surfaced, where a record whose identifier
    an earlier accepted record already has is dropped; the
    Seen-Identifier Set holds the identifiers of these rows. *)
Theorem table_is_first_occurrences (a : args) net (queries : list str) (st : state) :
  for_queries str_lower float_of_str format_float a net 0 initial queries = Ok st ->
  let kept :=
    keep_first ∅
      (omap (accepted str_lower float_of_str format_float)
            (surfaced a net 0 queries)) in
  rows st = kept.*2 /\ seen st = list_to_set kept.*1.
Proof.
  intros Hrun. apply for_queries_surfaced in Hrun as (st2 & Hfp & [Hs Hr]).
  apply for_products_keep_first in Hfp as [Hrows Hseen]. cbv zeta.
  rewrite <- Hs, <- Hr, Hrows, Hseen. cbn [initial seen rows app].
  split; [reflexivity | set_solver].
Qed.

(** *** Warnings and pauses *)

Lemma for_products_quiet (ps : list pyval) :
  forall s s',
    for_products str_lower float_of_str format_float s ps = Ok s' ->
    stdout s' = stdout s /\ naps s' = naps s.
Proof.
  induction ps as [|p ps IH]; intros s s'; cbn [for_products].
  - intros [= <-]. auto.
  - destruct (visit str_lower float_of_str format_float s p) as [s1|e] eqn:Hv;
      rewrite ?bind_Ok; [|discriminate].
    intros Hrest. apply IH in Hrest as [H1 H2].
    apply visit_cases in Hv as [(why & _ & ->)|(code & row & _ & _ & _ & ->)];
      auto.
Qed.

(** What a run prints before its summary line. *)
Lemma stdout_is_warnings (a : args) net (queries : list str) (st : state) :
  for_queries str_lower float_of_str format_float a net 0 initial queries = Ok st ->
  stdout st = warnings a net 0 queries.
Proof.
  change (warnings a net 0 queries) with (stdout initial ++ warnings a net 0 queries).
  generalize 0 initial. revert st.
  induction queries as [|q queries IH]; intros st' idx st; cbn [for_queries warnings].
  - intros [= <-]. rewrite app_nil_r. reflexivity.
  - destruct (query str_lower float_of_str format_float a (net idx) st q) as [st1|e] eqn:Hq;
      rewrite ?bind_Ok; [|discriminate].
    intros Hrest. apply IH in Hrest as ->.
    apply query_cases in Hq as [(e & Hf & ->)|(products & ps & st2 & Hf & _ & Hfp & ->)];
      rewrite Hf.
    + cbn [print stdout]. rewrite <- app_assoc. reflexivity.
    + apply for_products_quiet in Hfp as [H1 _].
      cbn [sleep stdout app]. rewrite H1. reflexivity.
Qed.

(** X10: every query term is accounted for: a failed term prints one
    warning, with its text and the error, and is not followed by a
    pause; a term that succeeds prints nothing and is followed by one
    pause.  The warnings come in term order. *)
Theorem warnings_and_pauses (a : args) net (queries : list str) :
  forall (idx : nat) (st st' : state),
    for_queries str_lower float_of_str format_float a net idx st queries = Ok st' ->
    stdout st' = stdout st ++ warnings a net idx queries /\
    naps st' + length (warnings a net idx queries) = naps st + length queries.
Proof.
  assert (Hps : forall ps s s',
            for_products str_lower float_of_str format_float s ps = Ok s' ->
            stdout s' = stdout s /\ naps s' = naps s).
  { induction ps as [|p ps IH]; intros s s'; cbn [for_products].
    - intros [= <-]. auto.
    - destruct (visit str_lower float_of_str format_float s p) as [s1|e] eqn:Hv;
        rewrite ?bind_Ok; [|discriminate].
      intros Hrest. apply IH in Hrest as [H1 H2].
      apply visit_cases in Hv as [(why & _ & ->)|(code & row & _ & _ & _ & ->)];
        auto. }
  induction queries as [|q queries IH]; intros idx st st'; cbn [for_queries warnings].
  - intros [= <-]. rewrite app_nil_r. cbn [length]. split; [reflexivity | lia].
  - destruct (query str_lower float_of_str format_float a (net idx) st q) as [st1|e] eqn:Hq;
      rewrite ?bind_Ok; [|discriminate].
    intros Hrest. apply IH in Hrest as [Hout Hnaps].
    apply query_cases in Hq as [(e & Hf & ->)|(products & ps & st2 & Hf & _ & Hfp & ->)];
      rewrite Hf.
    + cbn [print stdout naps] in Hout, Hnaps. rewrite Hout, <- app_assoc.
      split; [reflexivity|]. rewrite length_app. cbn [length]. lia.
    + apply Hps in Hfp as [H1 H2].
      cbn [sleep stdout naps] in Hout, Hnaps. cbn [app]. rewrite Hout, H1.
      split; [reflexivity|]. cbn [length]. lia.
Qed.

(** *** Errors that end the run *)

Lemma visit_not_object (st : state) (p : pyval) :
  is_dict p = false ->
  visit str_lower float_of_str format_float st p = Raise AttributeError.
Proof. destruct p; try discriminate; reflexivity. Qed.

Lemma for_products_raises (before : list pyval) :
  forall st st2 p after e,
    for_products str_lower float_of_str format_float st before = Ok st2 ->
    visit str_lower float_of_str format_float st2 p = Raise e ->
    for_products str_lower float_of_str format_float st (before ++ p :: after) = Raise e.
Proof.
  intros st st2 p after e Hb Hv. rewrite for_products_app, Hb, bind_Ok.
  cbn [for_products]. rewrite Hv. reflexivity.
Qed.

(** X11: only the request of a term is guarded.  When the request
    succeeds and the records cannot be walked through (the "products"
    value is null, a number or a boolean), or the visit of one record
    raises (for instance a record that is not an object), the exception
    ends the run: no later term is queried and no table is written. *)
Theorem record_error_ends_run (a : args) net (pre : list str) (q : str)
    (post : list str) (st1 : state) (products : pyval) (e : exn) :
  for_queries str_lower float_of_str format_float a net 0 initial pre = Ok st1 ->
  fetch_off_search (net (length pre)) q (limit a) (lc a) = Ok products ->
  (py_iter products ≫= for_products str_lower float_of_str format_float st1) = Raise e ->
  for_queries str_lower float_of_str format_float a net 0 initial (pre ++ q :: post)
    = Raise e /\
  (forall fs,
     main_on str_lower float_of_str format_float (pre ++ q :: post) a net fs = Raise e) /\
  (match products with
   | VNone | VBool _ | VInt _ | VFloat _ => e = TypeError
   | _ => True
   end) /\
  (forall before p after st2,
     products = VList (before ++ p :: after) ->
     for_products str_lower float_of_str format_float st1 before = Ok st2 ->
     is_dict p = false ->
     e = AttributeError).
Proof.
  intros Hpre Hf Hraise.
  assert (Hrun : for_queries str_lower float_of_str format_float a net 0 initial
                   (pre ++ q :: post) = Raise e).
  { rewrite for_queries_app, Hpre, bind_Ok. cbn [for_queries Nat.add].
    unfold query. rewrite Hf.
    destruct (py_iter products) as [ps|e0]; rewrite ?bind_Ok, ?bind_Raise in *.
    - rewrite Hraise. reflexivity.
    - injection Hraise as ->. reflexivity. }
  split; [exact Hrun|]. split; [|split].
  - intros fs. unfold main_on. rewrite Hrun. reflexivity.
  - destruct products; try exact I; cbn [py_iter] in Hraise;
      rewrite bind_Raise in Hraise; congruence.
  - intros before p after st2 -> Hb Hp. cbn [py_iter] in Hraise.
    rewrite bind_Ok in Hraise.
    rewrite (for_products_raises before st1 st2 p after AttributeError Hb
               (visit_not_object st2 p Hp)) in Hraise.
    congruence.
Qed.

(** *** What the rows and the identifiers look like *)

Lemma py_strip_trimmed (v : pyval) (s : str) :
  py_strip v = Ok s -> strip s = s.
Proof. destruct v; try discriminate. intros [= <-]. apply strip_idempotent. Qed.

Lemma identifier_trimmed (p : pyval) (code : str) :
  identifier p = Ok code -> strip code = code.
Proof.
  unfold identifier. destruct (get p (u "code")) as [c|e]; [|discriminate].
  rewrite bind_Ok. apply py_strip_trimmed.
Qed.

Lemma display_name_trimmed (p : pyval) (name : str) :
  display_name p = Ok name -> strip name = name.
Proof.
  unfold display_name. destruct (get p (u "product_name")) as [c|e]; [|discriminate].
  rewrite bind_Ok. apply py_strip_trimmed.
Qed.

Lemma macros_finite (p : pyval) (kcal prot carb fat : float) :
  macros float_of_str p = Ok (kcal, prot, carb, fat) ->
  finite kcal = true /\ finite prot = true /\ finite carb = true /\ finite fat = true.
Proof.
  unfold macros. destruct (get p (u "nutriments")) as [n|e]; [|discriminate].
  rewrite bind_Ok. cbv zeta.
  repeat match goal with
  | |- context [get ?d ?k ≫= to_float float_of_str] =>
    destruct (get d k) as [?v|?e]; rewrite ?bind_Ok, ?bind_Raise;
      [|discriminate]
  | |- context [to_float float_of_str ?v] =>
    let f := fresh "f" in let H := fresh "H" in let Hf := fresh "Hf" in
    destruct (to_float_returns float_of_str v) as (f & H & Hf); rewrite H, bind_Ok
  end.
  intros [= <- <- <- <-]. auto.
Qed.

Lemma row_of_canonical (p : pyval) (name : str) (kcal prot carb fat : float)
    (row : list str) :
  row_of str_lower format_float p name (kcal, prot, carb, fat) = Ok row ->
  exists brand category,
    row = [name; name; brand;
           format_float kcal; format_float prot;
           format_float carb; format_float fat; category] /\
    strip brand = brand /\ (44%N ∉ brand) /\ category ∈ CATEGORIES.
Proof.
  unfold row_of.
  destruct (get p (u "brands")) as [b|e]; [rewrite bind_Ok | discriminate].
  destruct (py_strip (py_or b (VStr []))) as [bs|e]; [rewrite bind_Ok | discriminate].
  destruct (get p (u "categories_tags")) as [t|e]; [rewrite bind_Ok | discriminate].
  destruct (map_category str_lower (py_or t (VList []))) as [c|e] eqn:Hc;
    [rewrite bind_Ok | discriminate].
  intros [= <-]. exists (first_brand bs), c.
  destruct (first_brand_clean bs) as (Hcomma & Htrim).
  repeat split; auto. eapply map_category_closed, Hc.
Qed.

(** X12: every row of the Output Table is a Canonical Row: the trimmed
    non-empty name twice, a trimmed brand without a comma, the formatted
    values of four finite floats that are not all at most zero, and a
    label of the closed category set. *)
Theorem rows_are_canonical (a : args) net (queries : list str) (st : state) :
  for_queries str_lower float_of_str format_float a net 0 initial queries = Ok st ->
  Forall (canonical_row format_float) (rows st).
Proof.
  apply (for_queries_invariant str_lower float_of_str format_float
           (fun s => Forall (canonical_row format_float) (rows s))); auto.
  - intros s p s' HI Hv.
    apply visit_cases in Hv as [(why & _ & ->)|(code & row & Ha & _ & _ & ->)];
      [exact HI|].
    cbn [commit rows]. apply Forall_app. split; [exact HI|].
    apply Forall_singleton.
    apply examine_Append in Ha as (_ & _ & _ & m & name & Hm & Hb & Hn & Hnn & Hrow).
    destruct m as [[[kcal prot] carb] fat].
    destruct (macros_finite _ _ _ _ _ Hm) as (F1 & F2 & F3 & F4).
    destruct (row_of_canonical _ _ _ _ _ _ _ Hrow) as (brand & cat & -> & Hbt & Hbc & Hcat).
    exists name, brand, kcal, prot, carb, fat, cat.
    repeat split; auto. eapply display_name_trimmed, Hn.
Qed.

(** X13: every identifier in the Seen-Identifier Set is non-empty and
    has no whitespace at either end, so identifiers that differ only
    in surrounding whitespace are one identifier. *)
Theorem seen_identifiers_are_trimmed (a : args) net (queries : list str) (st : state) :
  for_queries str_lower float_of_str format_float a net 0 initial queries = Ok st ->
  forall code, code ∈ seen st -> code ≠ [] /\ strip code = code.
Proof.
  apply (for_queries_invariant str_lower float_of_str format_float
           (fun s => forall code, code ∈ seen s -> code ≠ [] /\ strip code = code));
    auto.
  - intros s p s' HI Hv.
    apply visit_cases in Hv as [(why & _ & ->)|(code & row & Ha & _ & _ & ->)];
      [exact HI|].
    cbn [commit seen]. intros c [Hc|Hc]%elem_of_union; [|auto].
    apply elem_of_singleton in Hc as ->.
    apply examine_Append in Ha as (Hid & Hne & _).
    split; [exact Hne | eapply identifier_trimmed, Hid].
  - intros code Hin. cbn [initial seen] in Hin. set_solver.
Qed.

(** *** The run as a whole *)

(** X14: when [main] completes, the file at the destination holds the
    UTF-8 encoding of a text that reads back as the header followed by
    the accumulated rows; the console shows the warnings of the failed
    terms, in order, and then one summary line whose count is the number
    of data rows of the file, which is the number of distinct identifiers
    accepted. *)
Theorem main_summary (queries : list str) (a : args)
    (net : nat -> request -> http_reply) (fs : gmap str bytes) (w : world) :
  main_on str_lower float_of_str format_float queries a net fs = Ok w ->
  exists (st : state) (text : str) (bs : bytes),
    for_queries str_lower float_of_str format_float a net 0 initial queries = Ok st /\
    files w !! out a = Some bs /\
    utf8_encode text = Ok bs /\ utf8_decode bs = text /\
    read_table text = HEADER :: rows st /\
    console w = warnings a net 0 queries ++ [DONE (length (rows st)) (out a)] /\
    length (read_table text) = S (size (seen st)) /\
    forall other, other ≠ out a -> files w !! other = fs !! other.
Proof.
  unfold main_on.
  destruct (for_queries str_lower float_of_str format_float a net 0 initial queries)
    as [st|e] eqn:Hrun; rewrite ?bind_Ok; [|discriminate].
  destruct (write_table (out a) (rows st) fs) as [fs' written] eqn:Hw.
  destruct written as [[]|e]; rewrite ?bind_Ok; [|discriminate].
  cbv zeta. intros [= <-]. cbn [files console print stdout].
  pose proof (write_table_returns _ _ _ _ Hw) as Hrows.
  rewrite (write_table_encodable _ _ _ Hrows) in Hw. injection Hw as <-.
  pose proof (read_table_writerows (rows st)) as Hread.
  exists st, (writerow HEADER ++ writerows (rows st)),
    (flat_map utf8_encode_char (writerow HEADER ++ writerows (rows st))).
  split; [reflexivity|]. split; [apply lookup_insert_eq|].
  split; [apply utf8_encode_encodable, table_encodable, Hrows|].
  split; [apply utf8_decode_encode|]. split; [exact Hread|].
  split; [rewrite (stdout_is_warnings a net queries st Hrun); reflexivity|]. split.
  - rewrite Hread. cbn [length]. f_equal.
    exact (rows_as_many_as_seen str_lower float_of_str format_float
             a net queries st Hrun).
  - intros other Hne. apply lookup_insert_ne. congruence.
Qed.

End Further.

(** X15: the writer loses nothing: two row sequences that are written
    as the same text are the same sequence, cell by cell. *)
Theorem writerows_injective (rs1 rs2 : list (list str)) :
  writerows rs1 = writerows rs2 -> rs1 = rs2.
Proof.
  intros H.
  rewrite <- (read_writerows rs1), <- (read_writerows rs2), H.
  reflexivity.
Qed.

(** *** A positive macro *)

(** A float that is not NaN and not at most zero is above zero. *)
Lemma not_le_zero_is_positive (x : float) :
  isnan x = false -> (x <=? 0)%float = false -> (0 <? x)%float = true.
Proof.
  unfold isnan, PrimFloat.is_nan.
  rewrite FloatAxioms.eqb_spec, FloatAxioms.leb_spec, FloatAxioms.ltb_spec.
  change (Prim2SF 0) with (S754_zero false).
  destruct (Prim2SF x) as [s| s | |s m e]; cbn; try discriminate;
    destruct s; cbn; try discriminate; try reflexivity.
Qed.

(** X16: an accepted record carries a signal: of the four sanitized
    macro values whose formatted forms are the cells 3 to 6 of its row,
    at least one is strictly above zero. *)
Theorem accepted_row_has_positive_macro
    (str_lower : str -> str) (float_of_str : str -> option float)
    (format_float : float -> str)
    (seen : gset str) (p : pyval) (code : str) (row : list str) :
  examine str_lower float_of_str format_float seen p = Ok (Append code row) ->
  exists kcal prot carb fat : float,
    macros float_of_str p = Ok (kcal, prot, carb, fat) /\
    (row !! 3%nat = Some (format_float kcal)) /\
    (row !! 4%nat = Some (format_float prot)) /\
    (row !! 5%nat = Some (format_float carb)) /\
    (row !! 6%nat = Some (format_float fat)) /\
    ((0 <? kcal) || (0 <? prot) || (0 <? carb) || (0 <? fat))%float = true.
Proof.
  intros Ha.
  apply examine_Append in Ha as (_ & _ & _ & m & name & Hm & Hb & _ & _ & Hrow).
  destruct m as [[[kcal prot] carb] fat].
  destruct (macros_finite _ _ _ _ _ _ Hm) as (F1 & F2 & F3 & F4).
  destruct (row_of_canonical _ _ _ _ _ _ _ _ _ Hrow)
    as (brand & cat & -> & _).
  exists kcal, prot, carb, fat. split; [exact Hm|].
  repeat (split; [reflexivity|]).
  assert (Hnan : forall x, finite x = true -> isnan x = false).
  { intros x. unfold finite. destruct (isnan x); [discriminate | reflexivity]. }
  unfold all_blank in Hb. apply orb_true_iff.
  destruct (kcal <=? 0)%float eqn:H1.
  - destruct (prot <=? 0)%float eqn:H2.
    + destruct (carb <=? 0)%float eqn:H3.
      * destruct (fat <=? 0)%float eqn:H4; [discriminate|].
        right. apply not_le_zero_is_positive; auto.
      * left. rewrite (not_le_zero_is_positive carb) by auto.
        rewrite !orb_true_r. reflexivity.
    + left. rewrite (not_le_zero_is_positive prot) by auto.
      rewrite !orb_true_r. reflexivity.
  - left. rewrite (not_le_zero_is_positive kcal) by auto. reflexivity.
Qed.

(** *** What a match is *)

Lemma startswith_spec (s k : str) :
  startswith s k = true <-> exists post, s = k ++ post.
Proof.
  revert s. induction k as [|a k IH]; intros s.
  - split; [eauto | destruct s; reflexivity].
  - destruct s as [|b s]; cbn [startswith].
    + split; [discriminate | intros [post [=]]].
    + rewrite andb_true_iff, N.eqb_eq, IH. split.
      * intros [-> [post ->]]. eauto.
      * intros [post [= -> ->]]. eauto.
Qed.

Lemma contains_spec (k s : str) :
  contains k s = true <-> exists pre post, s = pre ++ k ++ post.
Proof.
  split.
  - induction s as [|c s IH]; cbn [contains];
      rewrite orb_true_iff, startswith_spec.
    + intros [[post ->]|[=]]. exists [], post. reflexivity.
    + intros [[post ->]|H]; [exists [], post; reflexivity|].
      destruct (IH H) as (pre & post & ->). exists (c :: pre), post. reflexivity.
  - intros (pre & post & ->). induction pre as [|c pre IH].
    + cbn [app]. destruct (k ++ post) eqn:E; cbn [contains]; rewrite <- E;
        rewrite (proj2 (startswith_spec (k ++ post) k)) by eauto; reflexivity.
    + cbn [app contains]. rewrite IH. apply orb_true_r.
Qed.

(** X17: matching is by occurrence: for a list of string tags the
    classifier answers "other" exactly when no keyword of the table
    occurs as a contiguous block inside any lowered tag; any other
    answer is the label of a keyword that occurs inside a lowered tag. *)
Theorem label_means_occurrence (str_lower : str -> str) (tags : list str) :
  (map_category str_lower (VList (map VStr tags)) = Ok (u "other") <->
   forall tag key c before after,
     tag ∈ tags -> (key, c) ∈ CATEGORY_MAP ->
     str_lower tag ≠ before ++ key ++ after) /\
  (forall c,
     map_category str_lower (VList (map VStr tags)) = Ok c -> c ≠ u "other" ->
     exists tag key before after,
       tag ∈ tags /\ (key, c) ∈ CATEGORY_MAP /\
       str_lower tag = before ++ key ++ after).
Proof.
  rewrite map_category_strs.
  assert (Hno : forall key, (key, u "other") ∉ CATEGORY_MAP).
  { assert (H : Forall (fun kv : str * str => kv.2 ≠ u "other") CATEGORY_MAP)
      by (apply (bool_decide_unpack _); vm_compute; exact I).
    intros key Hin. exact (proj1 (Forall_forall _ _) H _ Hin eq_refl). }
  destruct (scan_tags_spec (map str_lower tags))
    as [(i & j & tag & key & Hi & Hj & Hc & _)|[Ho Hnone]].
  - apply list_elem_of_lookup_2 in Hi, Hj.
    apply list_elem_of_fmap in Hi as (t & -> & Ht).
    apply contains_spec in Hc as (before & after & Hc).
    split.
    + split.
      * intros [= Heq]. rewrite Heq in Hj. destruct (Hno _ Hj).
      * intros Hall. destruct (Hall t key _ before after Ht Hj Hc).
    + intros c [= <-] _. eauto 10.
  - split.
    + split; [|rewrite Ho; reflexivity].
      intros _ tag key c before after Ht Hk Heq.
      assert (Hc : contains key (str_lower tag) = true)
        by (apply contains_spec; eauto).
      rewrite (Hnone (str_lower tag) key c) in Hc; [discriminate| |exact Hk].
      apply list_elem_of_fmap. eauto.
    + intros c [= <-] Hc. destruct (Hc Ho).
Qed.

(** ** Closed instances of the further properties *)

Lemma first_brand_first_token_witness :
  exists before part after,
    str_split 44 (u " ,Bee , C") = before ++ part :: after /\
    Forall (fun p => forallb is_space p = true) before /\
    first_brand (u " ,Bee , C") = strip part.
Proof.
  apply (proj2 (proj2 (proj2 (proj2 (first_brand_first_token (u " ,Bee , C")))))).
  vm_compute. discriminate.
Defined.

Lemma to_float_fixes_finite_witness :
  to_float float_of_digits (VFloat 1.5) = Ok 1.5%float.
Proof.
  apply (proj1 (to_float_fixes_finite float_of_digits)).
  reflexivity.
Defined.

Lemma fetch_off_search_succeeds_iff_witness :
  exists (status : Z) (d : list (str * pyval)),
    blank_then_full 0 {| search_terms := u "a"; page_size := 60; req_lc := u "tr" |}
      = Response status (Ok (VDict d)) /\
    (200 <= status < 300)%Z /\
    VList [blank_X1] = default (VList []) (assoc (u "products") d).
Proof.
  apply (proj1 (fetch_off_search_succeeds_iff
                  (blank_then_full 0) (u "a") 60 (u "tr") (VList [blank_X1]))).
  vm_compute. reflexivity.
Defined.

Lemma accepted_iff_witness :
  exists row,
    examine ascii_lower float_of_digits repr_integral ∅ full_X1
    = Ok (Append (u "X1") row).
Proof.
  refine (proj2 (accepted_iff ascii_lower float_of_digits repr_integral
                   ∅ full_X1 (u "X1") _) _).
  - vm_compute. reflexivity.
  - split; [vm_compute; reflexivity|].
    split; [vm_compute; discriminate|].
    split; [apply not_elem_of_empty|].
    split; eexists; (split; [vm_compute; reflexivity|]);
      vm_compute; [reflexivity | discriminate].
Defined.

Lemma table_only_grows_witness :
  rows initial `prefix_of` rows after_blank_then_full.
Proof.
  apply (table_only_grows ascii_lower float_of_digits repr_integral
           example_args blank_then_full [u "a"; u "b"] 0 initial after_blank_then_full).
  vm_compute. reflexivity.
Defined.

Lemma revisiting_changes_nothing_witness :
  for_products ascii_lower float_of_digits repr_integral
    after_blank_then_full [full_X1; blank_X1]
  = Ok after_blank_then_full.
Proof.
  refine (revisiting_changes_nothing ascii_lower float_of_digits repr_integral
            [blank_X1; full_X1] initial
            {| seen := {[u "X1"]}; rows := [row_full_X1]; stdout := []; naps := 0 |}
            _ [full_X1; blank_X1] after_blank_then_full _ _).
  - vm_compute. reflexivity.
  - repeat constructor.
  - reflexivity.
Defined.

Lemma table_is_first_occurrences_witness :
  rows after_blank_then_full =
  (keep_first ∅
     (omap (accepted ascii_lower float_of_digits repr_integral)
           (surfaced example_args blank_then_full 0 [u "a"; u "b"]))).*2.
Proof.
  apply (table_is_first_occurrences ascii_lower float_of_digits repr_integral
           example_args blank_then_full [u "a"; u "b"] after_blank_then_full).
  vm_compute. reflexivity.
Defined.

Lemma warnings_and_pauses_witness :
  stdout after_down_then_full =
  stdout initial ++ warnings example_args down_then_full 0 [u "a"; u "b"].
Proof.
  apply (warnings_and_pauses ascii_lower float_of_digits repr_integral
           example_args down_then_full [u "a"; u "b"] 0 initial after_down_then_full).
  vm_compute. reflexivity.
Defined.

Lemma record_error_ends_run_witness :
  for_queries ascii_lower float_of_digits repr_integral example_args
    (fun _ _ => Response 200 (Ok (VDict [(u "products", VNone)])))
    0 initial ([] ++ u "a" :: [u "b"])
  = Raise TypeError.
Proof.
  refine (proj1 (record_error_ends_run ascii_lower float_of_digits repr_integral
                   example_args
                   (fun _ _ => Response 200 (Ok (VDict [(u "products", VNone)])))
                   [] (u "a") [u "b"] initial VNone TypeError _ _ _)).
  - reflexivity.
  - vm_compute. reflexivity.
  - reflexivity.
Defined.

Lemma rows_are_canonical_witness :
  Forall (canonical_row repr_integral) (rows after_blank_then_full).
Proof.
  apply (rows_are_canonical ascii_lower float_of_digits repr_integral
           example_args blank_then_full [u "a"; u "b"] after_blank_then_full).
  vm_compute. reflexivity.
Defined.

Lemma seen_identifiers_are_trimmed_witness :
  u "X1" ≠ [] /\ strip (u "X1") = u "X1".
Proof.
  refine (seen_identifiers_are_trimmed ascii_lower float_of_digits repr_integral
            example_args blank_then_full [u "a"; u "b"] after_blank_then_full
            _ (u "X1") _).
  - vm_compute. reflexivity.
  - vm_compute. reflexivity.
Defined.

Lemma main_summary_witness :
  exists (st : state) (text : str) (bs : bytes),
    for_queries ascii_lower float_of_digits repr_integral
      example_args blank_then_full 0 initial [u "a"; u "b"] = Ok st /\
    ({[ out example_args :=
          flat_map utf8_encode_char (writerow HEADER ++ writerow row_full_X1) ]}
       : gmap str bytes) !! out example_args = Some bs /\
    utf8_encode text = Ok bs /\ utf8_decode bs = text /\
    read_table text = HEADER :: rows st.
Proof.
  destruct (main_summary ascii_lower float_of_digits repr_integral
              [u "a"; u "b"] example_args blank_then_full ∅
              {| files :=
                   {[ out example_args :=
                        flat_map utf8_encode_char
                          (writerow HEADER ++ writerow row_full_X1) ]};
                 console := [DONE 1 (out example_args)] |})
    as (st & text & bs & H1 & H2 & H3 & H4 & H5 & _).
  - vm_compute. reflexivity.
  - exists st, text, bs. auto.
Defined.

Lemma writerows_injective_witness :
  [[u "a,b"; u "c"]] = [[u "a,b"; u "c"]].
Proof.
  apply (writerows_injective [[u "a,b"; u "c"]] [[u "a,b"; u "c"]]).
  reflexivity.
Defined.

Lemma accepted_row_has_positive_macro_witness :
  exists kcal prot carb fat : float,
    macros float_of_digits full_X1 = Ok (kcal, prot, carb, fat) /\
    (row_full_X1 !! 3%nat = Some (repr_integral kcal)) /\
    (row_full_X1 !! 4%nat = Some (repr_integral prot)) /\
    (row_full_X1 !! 5%nat = Some (repr_integral carb)) /\
    (row_full_X1 !! 6%nat = Some (repr_integral fat)) /\
    ((0 <? kcal) || (0 <? prot) || (0 <? carb) || (0 <? fat))%float = true.
Proof.
  apply (accepted_row_has_positive_macro ascii_lower float_of_digits repr_integral
           ∅ full_X1 (u "X1") row_full_X1).
  vm_compute. reflexivity.
Defined.

Lemma label_means_occurrence_witness :
  exists tag key before after,
    tag ∈ [u "en:Chicken-Breast"] /\ (key, u "meat") ∈ CATEGORY_MAP /\
    ascii_lower tag = before ++ key ++ after.
Proof.
  apply (proj2 (label_means_occurrence ascii_lower [u "en:Chicken-Breast"])).
  - vm_compute. reflexivity.
  - vm_compute. discriminate.
Defined.
